(** * bsonx.Element: validation, key access and re-serialization

    A shallow embedding of [bsonx/element.go].  An element is a lazy view
    [(data, start, offset)] over a byte buffer, with an optional
    materialized document [d] that supersedes the raw payload bytes.

    Conventions of the embedding:
    - Go's [uint32]/[int32] are [Z] with the wrap-around written out
      ([Go.uint32], [Go.int32]); [uint]/[int] are taken to be 64 bits wide.
    - A [[]byte] is a [list byte] whose capacity equals its length; a nil
      slice is told apart from an empty one only where the code compares
      against [nil] (field [data] is an [option]).
    - A run-time panic is the outcome [Panics]; an [error] result is data.
    - [writeByteSlice] mutates both the destination and (for code with
      scope) the element's own buffer: both buffers are threaded through
      explicitly.  The destination is assumed not to overlap the element's
      buffer.
    - Document, Array, Value.validate, Value.Equal and io.Writer live in
      other files of the package: they are the fields of the class
      [Package], and every property holds for every instance of it. *)

From Stdlib Require Import ZArith List Lia Bool.
From coqutil Require Import Byte Word.LittleEndianList.
Import ListNotations.
Local Open Scope Z_scope.

(** ** Errors *)

Inductive error : Type :=
| NilElement            (* bsonerr.NilElement *)
| UninitializedElement  (* bsonerr.UninitializedElement *)
| InvalidKey            (* bsonerr.InvalidKey *)
| InvalidWriter         (* bsonerr.InvalidWriter *)
| ErrTooSmall           (* newErrTooSmall() of package bsonx *)
| CodecTooSmall         (* failure of the scalar codec (package elements) *)
| Structural (code : nat) (* any error of a Document, Array, Value or io.Writer *)
| WithStack (e : error).  (* errors.WithStack *)

(** [errors.WithStack(err)]: nil stays nil. *)
Definition errors_WithStack (err : option error) : option error :=
  option_map WithStack err.

(** ** The Go run time: outcomes, integers, slices *)

Module Go.

Inductive panic : Type :=
| IndexOutOfRange
| SliceBoundsOutOfRange
| NilDereference
| Thrown (e : error).   (* panic(err) *)

Inductive outcome (A : Type) : Type :=
| Returns (a : A)
| Panics (p : panic).
Arguments Returns {A} a.
Arguments Panics {A} p.

Definition bind {A B : Type} (m : outcome A) (k : A -> outcome B) : outcome B :=
  match m with
  | Returns a => k a
  | Panics p => Panics p
  end.

Definition uint32 (z : Z) : Z := z mod 2 ^ 32.
Definition int32 (z : Z) : Z := (z + 2 ^ 31) mod 2 ^ 32 - 2 ^ 31.
Definition uint (z : Z) : Z := z mod 2 ^ 64.
Definition int (z : Z) : Z := (z + 2 ^ 63) mod 2 ^ 64 - 2 ^ 63.
Definition int64 (z : Z) : Z := (z + 2 ^ 63) mod 2 ^ 64 - 2 ^ 63.

Definition len (s : list byte) : Z := Z.of_nat (length s).

(** [*p] on a pointer that may be nil. *)
Definition deref {A : Type} (p : option A) : outcome A :=
  match p with
  | Some a => Returns a
  | None => Panics NilDereference
  end.

(** [s[i]] *)
Definition index (s : list byte) (i : Z) : outcome byte :=
  if (0 <=? i) && (i <? len s) then
    match nth_error s (Z.to_nat i) with
    | Some c => Returns c
    | None => Panics IndexOutOfRange
    end
  else Panics IndexOutOfRange.

(** The bytes of [s[lo:hi]] when the bounds are in range. *)
Definition sub (s : list byte) (lo hi : Z) : list byte :=
  firstn (Z.to_nat (hi - lo)) (skipn (Z.to_nat lo) s).

(** [s[lo:hi]] *)
Definition slice (s : list byte) (lo hi : Z) : outcome (list byte) :=
  if (0 <=? lo) && (lo <=? hi) && (hi <=? len s) then Returns (sub s lo hi)
  else Panics SliceBoundsOutOfRange.

(** The destination after [copy(b[at:], src)] and the number of bytes
    copied, when [at] is in range: [min(len(b)-at, len(src))] bytes of
    [src] replace the bytes of [b] from [at] on. *)
Definition copied (b : list byte) (at_ : Z) (src : list byte) : Z :=
  Z.min (len b - at_) (len src).

Definition overwrite (b : list byte) (at_ : Z) (src : list byte) : list byte :=
  let n := copied b at_ src in
  firstn (Z.to_nat at_) b ++ firstn (Z.to_nat n) src ++ skipn (Z.to_nat (at_ + n)) b.

(** [copy(b[at:], src)]: [b[at:]] shares the array of [b]. *)
Definition copy (b : list byte) (at_ : Z) (src : list byte) : outcome (list byte * Z) :=
  if (0 <=? at_) && (at_ <=? len b) then Returns (overwrite b at_ src, copied b at_ src)
  else Panics SliceBoundsOutOfRange.

(** [make([]byte, n)] *)
Definition make (n : Z) : list byte := repeat Byte.x00 (Z.to_nat n).

End Go.

Import Go.

Notation "x <- m ;; k" := (Go.bind m (fun x => k))
  (at level 61, m at next level, right associativity).
Notation "' p <- m ;; k" := (Go.bind m (fun p => k))
  (at level 61, p pattern, m at next level, right associativity).

(** ** The scalar codec for 32-bit integers *)

(** Modelled from the spec: [readi32] is not in this file; the spec fixes
    the layout as little-endian and the field as 4 bytes wide.  It reads
    the first four bytes of its argument as a signed 32-bit integer and
    fails on a shorter argument. *)
Definition readi32 (b : list byte) : outcome Z :=
  if len b <? 4 then Panics IndexOutOfRange
  else Returns (int32 (le_combine (firstn 4 b))).

(** The buffer with the four little-endian bytes of [i] put at [at_]. *)
Definition put_i32 (buf : list byte) (at_ : Z) (i : Z) : list byte :=
  firstn (Z.to_nat at_) buf ++ le_split 4 i ++ skipn (Z.to_nat (at_ + 4)) buf.

(** Modelled from the spec: [elements.Int32.Encode] is not in this file;
    the spec gives its contract as encodeInt32(offset, buffer, value),
    which writes 4 bytes and fails if offset+4 exceeds the buffer.
    Returns the buffer after the call, the count and the error. *)
Definition Int32_Encode (at_ : Z) (writer : list byte) (i : Z)
  : list byte * Z * option error :=
  if len writer <? at_ + 4 then (writer, 0, Some CodecTooSmall)
  else (put_i32 writer at_ i, 4, None).

(** ** Elements *)

(** [Document] is the type of the materialized container of a value
    (Go's pointer to Document); an Array wraps the same document. *)
Record Value (Document : Type) : Type := mkValue {
  start : Z;                    (* uint32: offset of the type tag *)
  offset : Z;                   (* uint32: offset of the payload *)
  data : option (list byte);    (* []byte, None for nil *)
  d : option Document           (* pointer to Document, None for nil *)
}.
Arguments mkValue {Document} start offset data d.
Arguments start {Document} v.
Arguments offset {Document} v.
Arguments data {Document} v.
Arguments d {Document} v.

Record Element (Document : Type) : Type := mkElement {
  value : option (Value Document)   (* pointer to Value, None for nil *)
}.
Arguments mkElement {Document} value.
Arguments value {Document} e.

(** The rest of package bsonx, as far as this file calls it:
    - [Value.validate(sizeOnly)] and [Value.Equal], of value.go;
    - [Document.Validate], [Document.writeByteSlice] and
      [Array.writeByteSlice] for the array over a document; each write
      returns the destination after the call, the count and the error;
    - an [io.Writer], whose [Write] returns the writer after the call, the
      count and the error. *)
Class Package (Document Writer : Type) : Type := {
  value_validate : Value Document -> bool -> outcome (Z * option error);
  value_Equal : Value Document -> Value Document -> outcome bool;
  doc_Validate : Document -> outcome (Z * option error);
  doc_writeByteSlice :
    Document -> Z -> Z -> list byte -> outcome (list byte * Z * option error);
  arr_writeByteSlice :
    Document -> Z -> Z -> list byte -> outcome (list byte * Z * option error);
  w_Write : Writer -> list byte -> outcome (Writer * Z * option error)
}.

Section Element.

Context {Document Writer : Type} {pkg : Package Document Writer}.

(** The bytes of a possibly nil slice. *)
Definition bytes (s : option (list byte)) : list byte :=
  match s with
  | Some l => l
  | None => []
  end.

(** The loop of [validateKey]:
    [for ; pos < end && data[pos] != 0; pos++ { total++ }].
    [fuel] bounds the number of iterations; [validateKey] passes
    [end - pos], which the loop cannot exceed. *)
Fixpoint key_loop (fuel : nat) (buf : list byte) (pos end_ total : Z)
  : outcome (Z * Z) :=
  match fuel with
  | O => Returns (pos, total)
  | S k =>
    if pos <? end_ then
      c <- index buf pos ;;
      if Byte.eqb c Byte.x00 then Returns (pos, total)
      else key_loop k buf (uint32 (pos + 1)) end_ (uint32 (total + 1))
    else Returns (pos, total)
  end.

Definition validateKey (v : Value Document) : outcome (Z * option error) :=
  match data v with
  | None => Returns (0, Some UninitializedElement)
  | Some buf =>
    let pos := uint32 (start v + 1) in
    let end_ := offset v in
    let end_ := if uint32 (len buf) <? end_ then uint32 (len buf) else end_ in
    '(pos, total) <- key_loop (Z.to_nat (end_ - pos)) buf pos end_ 0 ;;
    if pos =? end_ then Returns (total, Some InvalidKey)
    else
      c <- index buf pos ;;
      if negb (Byte.eqb c Byte.x00) then Returns (total, Some InvalidKey)
      else Returns (uint32 (total + 1), None)
  end.

Definition Validate (e : option (Element Document)) : outcome (Z * option error) :=
  match e with
  | None => Returns (0, Some NilElement)
  | Some el =>
    match value el with
    | None => Returns (0, Some UninitializedElement)
    | Some v =>
      let total := 1 in
      '(n, err) <- validateKey v ;;
      let total := uint32 (total + n) in
      match err with
      | Some x => Returns (total, Some x)
      | None =>
        '(n, err) <- value_validate v false ;;
        let total := uint32 (total + n) in
        match err with
        | Some x => Returns (total, Some x)
        | None => Returns (total, None)
        end
      end
    end
  end.

(** [KeyOK]: the key as bytes, and whether the element is initialized. *)
Definition KeyOK (e : option (Element Document)) : outcome (list byte * bool) :=
  match e with
  | None => Returns ([], false)
  | Some el =>
    match value el with
    | None => Returns ([], false)
    | Some v =>
      if offset v =? 0 then Returns ([], false)
      else
        match data v with
        | None => Returns ([], false)
        | Some buf =>
          k <- slice buf (uint32 (start v + 1)) (uint32 (offset v - 1)) ;;
          Returns (k, true)
        end
    end
  end.

Definition Key (e : option (Element Document)) : outcome (list byte) :=
  '(key, ok) <- KeyOK e ;;
  if negb ok then Panics (Thrown UninitializedElement)
  else Returns key.

Definition bytes_eqb (a b : list byte) : bool :=
  if list_eq_dec Byte.byte_eq_dec a b then true else false.

Definition Equal (e e2 : option (Element Document)) : outcome bool :=
  match e, e2 with
  | None, None => Returns true
  | None, Some _ => Returns false
  | Some _, None => Returns false
  | Some el, Some el2 =>
    k <- Key e ;;
    k2 <- Key e2 ;;
    if negb (bytes_eqb k k2) then Returns false
    else
      v <- deref (value el) ;;
      v2 <- deref (value el2) ;;
      value_Equal v v2
  end.

(** ** Serialization *)

(** What a write leaves behind: the element's own buffer, the
    destination, the count returned and the error returned. *)
Record written : Type := mkWritten {
  src_after : list byte;
  dst_after : list byte;
  count : Z;
  failure : option error
}.

(** The statement [n = copy(b[start:], e.value.data[startToWrite:e.value.start+size])]
    followed by [return int64(n), nil]. *)
Definition copy_verbatim (v : Value Document) (buf : list byte) (startToWrite start_ size : Z)
  (b : list byte) : outcome written :=
  src <- slice buf startToWrite (uint32 (start v + size)) ;;
  '(b, n) <- copy b start_ src ;;
  Returns (mkWritten buf b (int64 n) None).

(** The body shared by the cases ['\x03'] and ['\x04'] once [e.value.d] is
    known not to be nil; [write] is the document's [writeByteSlice] in the
    first case and that of the array over it in the second. *)
Definition write_container
  (write : Document -> Z -> Z -> list byte -> outcome (list byte * Z * option error))
  (v : Value Document) (doc : Document) (buf : list byte) (key : bool)
  (startToWrite start_ size : Z) (b : list byte) : outcome written :=
  let header := uint32 (offset v - start v) in
  let size := uint32 (size - header) in
  '(b, n, start_) <-
    (if key then
       src <- slice buf startToWrite (offset v) ;;
       '(b, c) <- copy b start_ src ;;
       let n := int (0 + c) in
       Returns (b, n, uint (start_ + uint n))
     else Returns (b, 0, start_)) ;;
  '(b, nn, err) <- write doc start_ size b ;;
  let n := int (n + int nn) in
  Returns (mkWritten buf b (int64 n) err).

(** The case ['\x0F']. *)
Definition write_code_with_scope (v : Value Document) (buf : list byte) (key : bool)
  (startToWrite start_ size : Z) (b : list byte) : outcome written :=
  let codeStart := uint32 (offset v + 4) in
  sl <- slice buf codeStart (uint32 (codeStart + 4)) ;;
  codeLength <- readi32 sl ;;
  match d v with
  | Some doc =>
    let lengthWithoutScope := int32 (4 + 4 + codeLength) in
    '(scopeLength, err) <- doc_Validate doc ;;
    match err with
    | Some x => Returns (mkWritten buf b 0 (Some x))
    | None =>
      let codeWithScopeLength := int32 (lengthWithoutScope + int32 scopeLength) in
      let '(buf, _, err) := Int32_Encode (uint (offset v)) buf codeWithScopeLength in
      match err with
      | Some x => Returns (mkWritten buf b (int64 0) (Some x))
      | None =>
        let codeEnd := uint32 (offset v + uint32 lengthWithoutScope) in
        src <- slice buf startToWrite codeEnd ;;
        '(b, c) <- copy b start_ src ;;
        let n := int (0 + c) in
        let start_ := uint (start_ + uint n) in
        '(b, nn, err) <- doc_writeByteSlice doc start_ scopeLength b ;;
        let n := int (n + int nn) in
        Returns (mkWritten buf b (int64 n) err)
      end
    end
  | None =>
    let scopeStart := uint32 (codeStart + 4 + uint32 codeLength) in
    sl <- slice buf scopeStart (uint32 (scopeStart + 4)) ;;
    scopeLength <- readi32 sl ;;
    let codeWithScopeEnd := int32 (int32 scopeStart + scopeLength) in
    let codeWithScopeLength := int32 (codeWithScopeEnd - int32 (offset v)) in
    let '(buf, _, err) := Int32_Encode (uint (offset v)) buf codeWithScopeLength in
    match err with
    | Some x => Returns (mkWritten buf b 0 (Some x))
    | None => copy_verbatim v buf startToWrite start_ size b
    end
  end.

(** [needed]: the capacity the destination must have. *)
Definition needed (v : Value Document) (key : bool) (start_ size : Z) : Z :=
  let needed := uint (start_ + uint size) in
  if key then needed
  else uint (needed - uint (uint (uint (offset v) - uint (start v)) - 1)).

(** The [switch] on the type tag. *)
Definition write_switch (v : Value Document) (buf : list byte) (key : bool)
  (startToWrite start_ size : Z) (b : list byte) : outcome written :=
  tag <- index buf (start v) ;;
  match tag with
  | Byte.x03 =>
    match d v with
    | None => copy_verbatim v buf startToWrite start_ size b
    | Some doc =>
      write_container doc_writeByteSlice v doc buf key startToWrite start_ size b
    end
  | Byte.x04 =>
    match d v with
    | None => copy_verbatim v buf startToWrite start_ size b
    | Some doc =>
      write_container arr_writeByteSlice v doc buf key startToWrite start_ size b
    end
  | Byte.x0f => write_code_with_scope v buf key startToWrite start_ size b
  | _ => copy_verbatim v buf startToWrite start_ size b
  end.

Definition writeByteSlice (e : option (Element Document)) (key : bool) (start_ : Z) (size : Z)
  (b : list byte) : outcome written :=
  el <- deref e ;;
  v <- deref (value el) ;;
  let buf := bytes (data v) in
  let startToWrite := if key then uint (start v) else uint (offset v) in
  if len b <? needed v key start_ size then
    Returns (mkWritten buf b 0 (Some ErrTooSmall))
  else write_switch v buf key startToWrite start_ size b.

(** The element once its buffer holds [buf]. *)
Definition with_data (e : option (Element Document)) (buf : list byte) : option (Element Document) :=
  match e with
  | Some (mkElement (Some (mkValue s o (Some _) doc))) =>
    Some (mkElement (Some (mkValue s o (Some buf) doc)))
  | _ => e
  end.

(** [MarshalBSON]: the element after the call, the bytes (None for nil)
    and the error. *)
Definition MarshalBSON (e : option (Element Document))
  : outcome (option (Element Document) * option (list byte) * option error) :=
  '(size, err) <- Validate e ;;
  match err with
  | Some x => Returns (e, None, Some x)
  | None =>
    let b := make size in
    r <- writeByteSlice e true 0 size b ;;
    match failure r with
    | Some x => Returns (with_data e (src_after r), None, Some x)
    | None => Returns (with_data e (src_after r), Some (dst_after r), None)
    end
  end.

(** [WriteTo]: the element and the writer after the call, the count and
    the error. *)
Definition WriteTo (e : option (Element Document)) (w : Writer)
  : outcome (option (Element Document) * Writer * Z * option error) :=
  '(e', val, err) <- MarshalBSON e ;;
  match err with
  | Some x => Returns (e', w, 0, errors_WithStack (Some x))
  | None =>
    '(w, n, err) <- w_Write w (bytes val) ;;
    Returns (e', w, int64 n, errors_WithStack err)
  end.

(** The dynamic type of the [writer interface{}] argument. *)
Inductive target : Type :=
| ByteSlice (b : list byte)   (* []byte *)
| Stream (w : Writer)         (* io.Writer *)
| Unsupported.                (* anything else *)

Definition writeElement (e : option (Element Document)) (key : bool) (start_ : Z) (writer : target)
  : outcome (option (Element Document) * target * Z * option error) :=
  let total := 0 in
  '(size, err) <- Validate e ;;
  match err with
  | Some x => Returns (e, writer, 0, Some x)
  | None =>
    match writer with
    | ByteSlice w =>
      r <- writeByteSlice e key start_ size w ;;
      let e' := with_data e (src_after r) in
      match failure r with
      | Some _ => Returns (e', ByteSlice (dst_after r), 0, Some ErrTooSmall)
      | None =>
        let total := int64 (total + int64 (count r)) in
        Returns (e', ByteSlice (dst_after r), total, None)
      end
    | Stream w =>
      '(e', w, n, err) <- WriteTo e w ;;
      Returns (e', Stream w, n, err)
    | Unsupported => Returns (e, writer, 0, Some InvalidWriter)
    end
  end.

Definition WriteElement (e : option (Element Document)) (start_ : Z) (writer : target)
  : outcome (option (Element Document) * target * Z * option error) :=
  writeElement e true start_ writer.

End Element.

(** ** What the key scan computes *)

(** The number of bytes before the first null byte of [l] (all of [l] when
    it has none). *)
Fixpoint key_bytes (l : list byte) : Z :=
  match l with
  | [] => 0
  | c :: t => if Byte.eqb c Byte.x00 then 0 else 1 + key_bytes t
  end.

(** The end of the key region after clamping to the buffer. *)
Definition clamped_end {Document : Type} (v : Value Document) (buf : list byte) : Z :=
  if uint32 (len buf) <? offset v then uint32 (len buf) else offset v.

(** An element that [KeyOK] takes for uninitialized. *)
Definition uninitialized {Document : Type} (e : option (Element Document)) : Prop :=
  match e with
  | None => True
  | Some el =>
    match value el with
    | None => True
    | Some v => offset v = 0 \/ data v = None
    end
  end.

(** ** The fields of a code-with-scope value *)

(** The 32-bit field at [at_], as [readi32] decodes it. *)
Definition field_i32 (buf : list byte) (at_ : Z) : Z :=
  int32 (le_combine (firstn 4 (sub buf at_ (at_ + 4)))).

(** [codeLength]: the length field of the code string, after the outer
    length field. *)
Definition code_length {Document : Type} (v : Value Document) (buf : list byte) : Z :=
  field_i32 buf (offset v + 4).

(** [scopeStart] and [scopeLength]: where the scope document starts, and
    its own length prefix. *)
Definition scope_start {Document : Type} (v : Value Document) (buf : list byte) : Z :=
  uint32 (offset v + 4 + 4 + uint32 (code_length v buf)).

Definition scope_length {Document : Type} (v : Value Document) (buf : list byte) : Z :=
  field_i32 buf (scope_start v buf).

(** [codeEnd]: one past the code string. *)
Definition code_end {Document : Type} (v : Value Document) (buf : list byte) : Z :=
  uint32 (offset v + 4 + 4 + code_length v buf).

(** Where [writeByteSlice] starts to copy from. *)
Definition write_from {Document : Type} (v : Value Document) (key : bool) : Z :=
  if key then start v else offset v.

(** ** Stand-ins for the rest of the package, to run the code on *)

Module Fixture.

(** A document that is already serialized, one that does not validate, and
    one that validates to [size] but whose write reports an error. *)
Inductive document : Type :=
| Raw (bs : list byte)
| FailsValidate (code : nat)
| FailsWrite (size : Z) (code : nat).

Definition validate_document (doc : document) : outcome (Z * option error) :=
  match doc with
  | Raw bs => Returns (len bs, None)
  | FailsValidate code => Returns (0, Some (Structural code))
  | FailsWrite size _ => Returns (size, None)
  end.

Definition write_document (doc : document) (start_ size : Z) (b : list byte)
  : outcome (list byte * Z * option error) :=
  match doc with
  | Raw bs =>
    if len b <? start_ + size then Returns (b, 0, Some ErrTooSmall)
    else '(b, n) <- copy b start_ bs ;; Returns (b, n, None)
  | FailsValidate code => Returns (b, 0, Some (Structural code))
  | FailsWrite _ code => Returns (b, 0, Some (Structural code))
  end.

(** The payload of a raw value is the rest of its buffer. *)
Definition validate_value (v : Value document) (sizeOnly : bool)
  : outcome (Z * option error) :=
  match d v with
  | Some doc => validate_document doc
  | None => Returns (uint32 (len (bytes (data v)) - offset v), None)
  end.

Definition equal_value (v v2 : Value document) : outcome bool :=
  Returns (bytes_eqb (skipn (Z.to_nat (offset v)) (bytes (data v)))
                     (skipn (Z.to_nat (offset v2)) (bytes (data v2)))).

(** A writer that appends to a byte buffer. *)
Definition write_buffer (w : list byte) (p : list byte)
  : outcome (list byte * Z * option error) :=
  Returns (w ++ p, len p, None).

Definition package : Package document (list byte) := {|
  value_validate := validate_value;
  value_Equal := equal_value;
  doc_Validate := validate_document;
  doc_writeByteSlice := write_document;
  arr_writeByteSlice := write_document;
  w_Write := write_buffer
|}.

(** The string element of the spec: tag 0x02, key "x", value "hi". *)
Definition string_x_hi : list byte :=
  [Byte.x02; Byte.x78; Byte.x00; Byte.x03; Byte.x00; Byte.x00; Byte.x00;
   Byte.x68; Byte.x69; Byte.x00].

Definition elem (s o : Z) (buf : list byte) (doc : option document)
  : option (Element document) :=
  Some (mkElement (Some (mkValue s o (Some buf) doc))).

(** A code-with-scope element with key "k", the empty code string and an
    empty scope document, whose outer length field holds [outer]. *)
Definition code_with_scope (outer : byte) : list byte :=
  [Byte.x0f; Byte.x6b; Byte.x00;
   outer; Byte.x00; Byte.x00; Byte.x00;
   Byte.x01; Byte.x00; Byte.x00; Byte.x00; Byte.x00;
   Byte.x05; Byte.x00; Byte.x00; Byte.x00; Byte.x00].

(** An embedded-document element with key "k" and an empty document. *)
Definition embedded : list byte :=
  [Byte.x03; Byte.x6b; Byte.x00;
   Byte.x05; Byte.x00; Byte.x00; Byte.x00; Byte.x00].

(** The elements that the examples below run on. *)
Definition string_value : Value document := mkValue 0 3 (Some string_x_hi) None.
Definition string_element : option (Element document) :=
  Some (mkElement (Some string_value)).

(** A key without terminator: tag 0x02 and the bytes "xx". *)
Definition unterminated_value : Value document :=
  mkValue 0 3 (Some [Byte.x02; Byte.x78; Byte.x78]) None.

(** An element cut short: its offset points past the end of its buffer. *)
Definition truncated_element : option (Element document) :=
  elem 0 9 [Byte.x02; Byte.x78; Byte.x00] None.

(** An element whose offset leaves no room for a key terminator. *)
Definition keyless_element : option (Element document) :=
  elem 0 1 [Byte.x02; Byte.x78; Byte.x00] None.

(** Code with scope whose outer length field holds the stale value 99
    (the lengths of its parts add up to 14). *)
Definition stale : list byte := code_with_scope Byte.x63.
Definition stale_value : Value document := mkValue 0 3 (Some stale) None.
Definition stale_element : option (Element document) :=
  Some (mkElement (Some stale_value)).

(** The same with a materialized scope, an empty document. *)
Definition scope : list byte := [Byte.x05; Byte.x00; Byte.x00; Byte.x00; Byte.x00].
Definition edited_value : Value document := mkValue 0 3 (Some stale) (Some (Raw scope)).

(** An embedded document whose override validates but fails to write. *)
Definition failing_value : Value document :=
  mkValue 0 3 (Some embedded) (Some (FailsWrite 5 7)).
Definition failing_element : option (Element document) :=
  Some (mkElement (Some failing_value)).

(** A non-nil element whose value is nil. *)
Definition hollow_element : option (Element document) := Some (mkElement None).

End Fixture.

(** ** Constructors and conversions *)

(** A byte that does not end a key. *)
Definition nonnull (c : byte) : Prop := c <> Byte.x00.

(** [s[i] = c] *)
Definition store (s : list byte) (i : Z) (c : byte) : outcome (list byte) :=
  if (0 <=? i) && (i <? len s) then
    Returns (firstn (Z.to_nat i) s ++ c :: skipn (Z.to_nat (i + 1)) s)
  else Panics IndexOutOfRange.

(** [copy(b[lo:hi], src)]: at most [hi - lo] bytes of [src] replace the
    bytes of [b] from [lo] on. *)
Definition copy_between (b : list byte) (lo hi : Z) (src : list byte)
  : outcome (list byte * Z) :=
  if (0 <=? lo) && (lo <=? hi) && (hi <=? len b) then
    let n := Z.min (hi - lo) (len src) in
    Returns (firstn (Z.to_nat lo) b ++ firstn (Z.to_nat n) src
               ++ skipn (Z.to_nat (lo + n)) b, n)
  else Panics SliceBoundsOutOfRange.

Section Constructors.

Context {Document : Type}.

(** [Document.Copy], of document.go. *)
Variable doc_Copy : Document -> outcome (option Document).

Definition newElement (start_ offset_ : Z) : option (Element Document) :=
  Some (mkElement (Some (mkValue start_ offset_ None None))).

(** [Value]: the getter reads a field of its receiver. *)
Definition Element_Value (e : option (Element Document))
  : outcome (option (Value Document)) :=
  el <- deref e ;;
  Returns (value el).

Definition elemsFromValues (values : list (option (Value Document)))
  : list (option (Element Document)) :=
  map (fun v : option (Value Document) =>
         match v with
         | None => None
         | Some v => Some (mkElement (Some v))
         end)
      values.

(** [convertValueToElem]; the key is the string's bytes. *)
Definition convertValueToElem (key : list byte) (v : option (Value Document))
  : outcome (option (Element Document)) :=
  match v with
  | None => Returns None
  | Some v =>
    if offset v =? 0 then Returns None
    else
      match data v with
      | None => Returns None
      | Some buf =>
        let keyLen := len key in
        payload <- slice buf (offset v) (len buf) ;;
        let d0 := make (int (int (2 + len key) + len payload)) in
        tag <- index buf (start v) ;;
        d1 <- store d0 0 tag ;;
        '(d2, _) <- copy_between d1 1 (int (keyLen + 1)) key ;;
        d3 <- store d2 (int (keyLen + 1)) Byte.x00 ;;
        payload <- slice buf (offset v) (len buf) ;;
        '(d4, _) <- copy d3 (int (keyLen + 2)) payload ;;
        override <-
          match d v with
          | None => Returns None
          | Some doc => doc_Copy doc
          end ;;
        Returns (Some (mkElement
                         (Some (mkValue 0 (uint32 (int (keyLen + 2))) (Some d4) override))))
      end
  end.

End Constructors.

(** More stand-ins and sample elements. *)
Module Samples.

(** A [Copy] that returns the document itself. *)
Definition copy_document (doc : Fixture.document)
  : outcome (option Fixture.document) :=
  Returns (Some doc).

(** Code with scope whose outer length field already holds 14. *)
Definition consistent_value : Value Fixture.document :=
  mkValue 0 3 (Some (Fixture.code_with_scope Byte.x0e)) None.

(** The value of the string element, whose payload starts at 3, and the
    key "a". *)
Definition key_a : list byte := [Byte.x61].

Definition two_values : list (option (Value Fixture.document)) :=
  [Some Fixture.string_value; None].

End Samples.

(** A write that left the destination as it was outside of the [count]
    bytes from [start_] on. *)
Definition untouched_outside (b : list byte) (start_ : Z) (r : written) : Prop :=
  len (dst_after r) = len b
  /\ 0 <= count r
  /\ firstn (Z.to_nat start_) (dst_after r) = firstn (Z.to_nat start_) b
  /\ skipn (Z.to_nat (start_ + count r)) (dst_after r)
       = skipn (Z.to_nat (start_ + count r)) b.

(** Closes an arithmetic side condition on concrete data by evaluation. *)
Ltac by_evaluation :=
  vm_compute;
  repeat match goal with |- _ /\ _ => split end;
  first [reflexivity | intro; discriminate].

(** ** Facts about the run time *)

Lemma len_nonneg (s : list byte) : 0 <= len s.
Proof. unfold len. lia. Qed.

Lemma len_app (s t : list byte) : len (s ++ t) = len s + len t.
Proof. unfold len. rewrite length_app. lia. Qed.

Lemma len_firstn (n : Z) (s : list byte) :
  0 <= n <= len s -> len (firstn (Z.to_nat n) s) = n.
Proof. unfold len. intros H. rewrite length_firstn. lia. Qed.

Lemma len_skipn (n : Z) (s : list byte) :
  0 <= n <= len s -> len (skipn (Z.to_nat n) s) = len s - n.
Proof. unfold len. intros H. rewrite length_skipn. lia. Qed.

Lemma len_sub (s : list byte) (lo hi : Z) :
  0 <= lo <= hi -> hi <= len s -> len (sub s lo hi) = hi - lo.
Proof.
  unfold sub, len. intros H1 H2.
  rewrite length_firstn, length_skipn. unfold len in H2. lia.
Qed.

Lemma len_make (n : Z) : 0 <= n -> len (make n) = n.
Proof. unfold len, make. intros H. rewrite repeat_length. lia. Qed.

Lemma slice_in_range (s : list byte) (lo hi : Z) :
  0 <= lo <= hi -> hi <= len s -> slice s lo hi = Returns (sub s lo hi).
Proof.
  intros H1 H2. unfold slice.
  replace (0 <=? lo) with true by (symmetry; apply Z.leb_le; lia).
  replace (lo <=? hi) with true by (symmetry; apply Z.leb_le; lia).
  replace (hi <=? len s) with true by (symmetry; apply Z.leb_le; lia).
  reflexivity.
Qed.

Lemma copy_in_range (b : list byte) (at_ : Z) (src : list byte) :
  0 <= at_ <= len b ->
  copy b at_ src = Returns (overwrite b at_ src, copied b at_ src).
Proof.
  intros H. unfold copy.
  replace (0 <=? at_) with true by (symmetry; apply Z.leb_le; lia).
  replace (at_ <=? len b) with true by (symmetry; apply Z.leb_le; lia).
  reflexivity.
Qed.

Lemma copied_range (b : list byte) (at_ : Z) (src : list byte) :
  0 <= at_ <= len b -> 0 <= copied b at_ src <= len src.
Proof. intros H. unfold copied. pose proof (len_nonneg src). lia. Qed.

Lemma copied_all (b : list byte) (at_ : Z) (src : list byte) :
  at_ + len src <= len b -> copied b at_ src = len src.
Proof. intros H. unfold copied. lia. Qed.

Lemma index_in_range (s : list byte) (i : Z) :
  0 <= i < len s -> exists c, index s i = Returns c /\ nth_error s (Z.to_nat i) = Some c.
Proof.
  intros H. unfold index.
  replace (0 <=? i) with true by (symmetry; apply Z.leb_le; lia).
  replace (i <? len s) with true by (symmetry; apply Z.ltb_lt; lia).
  simpl. destruct (nth_error s (Z.to_nat i)) as [c|] eqn:E.
  - exists c. split; reflexivity.
  - apply nth_error_None in E. unfold len in H. lia.
Qed.

Lemma index_out_of_range (s : list byte) (i : Z) :
  len s <= i -> index s i = Panics IndexOutOfRange.
Proof.
  intros H. unfold index.
  replace (i <? len s) with false by (symmetry; apply Z.ltb_ge; lia).
  rewrite andb_false_r. reflexivity.
Qed.

(** [s[lo:hi]] starts with [s[lo]] when it is not empty. *)
Lemma sub_cons (s : list byte) (lo hi : Z) (c : byte) :
  0 <= lo < hi -> nth_error s (Z.to_nat lo) = Some c ->
  sub s lo hi = c :: sub s (lo + 1) hi.
Proof.
  intros H E. unfold sub.
  replace (Z.to_nat (hi - lo)) with (S (Z.to_nat (hi - (lo + 1)))) by lia.
  replace (Z.to_nat (lo + 1)) with (S (Z.to_nat lo)) by lia.
  revert E. generalize (Z.to_nat lo) as n. intros n. revert s.
  induction n as [|n IH]; intros [|x s] E; simpl in E; try discriminate.
  - inversion E; subst. reflexivity.
  - exact (IH s E).
Qed.

Lemma sub_empty (s : list byte) (lo : Z) : sub s lo lo = [].
Proof. unfold sub. rewrite Z.sub_diag. reflexivity. Qed.

(** A slice of a slice. *)
Lemma sub_sub (s : list byte) (lo hi a c : Z) :
  0 <= lo -> 0 <= a <= c -> lo + c <= hi ->
  sub (sub s lo hi) a c = sub s (lo + a) (lo + c).
Proof.
  intros Hlo Hac Hc. unfold sub.
  rewrite skipn_firstn_comm, firstn_firstn, skipn_skipn.
  replace (Z.to_nat a + Z.to_nat lo)%nat with (Z.to_nat (lo + a)) by lia.
  replace (lo + c - (lo + a)) with (c - a) by lia.
  f_equal. lia.
Qed.

(** What was copied is found in the destination. *)
Lemma sub_overwrite (b : list byte) (at_ : Z) (src : list byte) (a c : Z) :
  0 <= at_ -> at_ + len src <= len b -> 0 <= a <= c -> c <= len src ->
  sub (overwrite b at_ src) (at_ + a) (at_ + c) = sub src a c.
Proof.
  intros Hat Hfit Hac Hc. unfold overwrite.
  rewrite copied_all by assumption.
  unfold len at 1. rewrite Nat2Z.id, firstn_all.
  unfold sub.
  assert (Hl : length (firstn (Z.to_nat at_) b) = Z.to_nat at_).
  { rewrite length_firstn. pose proof (len_nonneg src). unfold len in *. lia. }
  replace (Z.to_nat (at_ + a)) with (length (firstn (Z.to_nat at_) b) + Z.to_nat a)%nat
    by (rewrite Hl; lia).
  rewrite skipn_app, skipn_all2 by lia.
  replace (length (firstn (Z.to_nat at_) b) + Z.to_nat a
           - length (firstn (Z.to_nat at_) b))%nat with (Z.to_nat a) by lia.
  simpl. rewrite skipn_app, firstn_app, length_skipn.
  replace (at_ + c - (at_ + a)) with (c - a) by lia.
  replace (Z.to_nat (c - a) - (length src - Z.to_nat a))%nat with 0%nat
    by (unfold len in Hc; lia).
  simpl. rewrite app_nil_r. reflexivity.
Qed.

(** ** Facts about the integer conversions and the scalar codec *)

Lemma uint32_small (z : Z) : 0 <= z < 2 ^ 32 -> uint32 z = z.
Proof. intros H. unfold uint32. apply Z.mod_small. exact H. Qed.

Lemma uint_small (z : Z) : 0 <= z < 2 ^ 64 -> uint z = z.
Proof. intros H. unfold uint. apply Z.mod_small. exact H. Qed.

Lemma int_small (z : Z) : - 2 ^ 63 <= z < 2 ^ 63 -> int z = z.
Proof. intros H. unfold int. rewrite Z.mod_small; lia. Qed.

Lemma int64_small (z : Z) : - 2 ^ 63 <= z < 2 ^ 63 -> int64 z = z.
Proof. intros H. unfold int64. rewrite Z.mod_small; lia. Qed.

Lemma uint32_range (z : Z) : 0 <= uint32 z < 2 ^ 32.
Proof. unfold uint32. apply Z.mod_pos_bound. lia. Qed.

Lemma uint32_le (z : Z) : 0 <= z -> uint32 z <= z.
Proof. intros H. unfold uint32. apply Z.mod_le; lia. Qed.

(** Two integers that agree modulo 2^32 are the same [int32]. *)
Lemma int32_congr (a b : Z) : a mod 2 ^ 32 = b mod 2 ^ 32 -> int32 a = int32 b.
Proof.
  intros H. unfold int32.
  rewrite <- (Zplus_mod_idemp_l a), <- (Zplus_mod_idemp_l b), H. reflexivity.
Qed.

Lemma int32_mod (a : Z) : (int32 a) mod 2 ^ 32 = a mod 2 ^ 32.
Proof.
  unfold int32. rewrite Zminus_mod_idemp_l.
  f_equal. lia.
Qed.

Lemma int32_add_l (a b : Z) : int32 (int32 a + b) = int32 (a + b).
Proof.
  apply int32_congr.
  rewrite <- Zplus_mod_idemp_l, int32_mod, Zplus_mod_idemp_l. reflexivity.
Qed.

Lemma int32_add_r (a b : Z) : int32 (a + int32 b) = int32 (a + b).
Proof. rewrite Z.add_comm, int32_add_l. f_equal. lia. Qed.

Lemma int32_sub_r (a b : Z) : int32 (a - int32 b) = int32 (a - b).
Proof.
  apply int32_congr.
  rewrite <- Zminus_mod_idemp_r, int32_mod, Zminus_mod_idemp_r. reflexivity.
Qed.

Lemma len_le_split (i : Z) : len (le_split 4 i) = 4.
Proof. unfold len. rewrite length_le_split. reflexivity. Qed.

(** Decoding the four bytes of [i] gives [i] back as an [int32]. *)
Lemma readi32_le_split (i : Z) : readi32 (le_split 4 i) = Returns (int32 i).
Proof.
  unfold readi32.
  rewrite len_le_split.
  change (4 <? 4) with false. cbv iota.
  replace (firstn 4 (le_split 4 i)) with (le_split 4 i) by reflexivity.
  rewrite le_combine_split. f_equal.
  apply int32_congr. change (Z.of_nat 4 * 8) with 32. apply Z.mod_mod. lia.
Qed.

Lemma len_put_i32 (buf : list byte) (at_ i : Z) :
  0 <= at_ -> at_ + 4 <= len buf -> len (put_i32 buf at_ i) = len buf.
Proof.
  intros H1 H2. unfold put_i32.
  rewrite !len_app, len_firstn, len_skipn, len_le_split by lia. lia.
Qed.

(** The header written by [put_i32] is read back from the same place. *)
Lemma sub_put_i32 (buf : list byte) (at_ i : Z) :
  0 <= at_ -> at_ + 4 <= len buf ->
  sub (put_i32 buf at_ i) at_ (at_ + 4) = le_split 4 i.
Proof.
  intros H1 H2. unfold put_i32, sub.
  assert (Hl : length (firstn (Z.to_nat at_) buf) = Z.to_nat at_).
  { rewrite length_firstn. unfold len in H2. lia. }
  rewrite skipn_app, Hl, Nat.sub_diag, skipn_all2 by lia.
  replace (at_ + 4 - at_) with 4 by lia.
  reflexivity.
Qed.

Lemma Int32_Encode_in_range (buf : list byte) (at_ i : Z) :
  at_ + 4 <= len buf -> Int32_Encode at_ buf i = (put_i32 buf at_ i, 4, None).
Proof.
  intros H. unfold Int32_Encode.
  replace (len buf <? at_ + 4) with false by (symmetry; apply Z.ltb_ge; lia).
  reflexivity.
Qed.

(** ** The key scan *)

Lemma key_bytes_range (l : list byte) : 0 <= key_bytes l <= len l.
Proof.
  unfold len. induction l as [|c t IH].
  - simpl. lia.
  - cbn [key_bytes length]. destruct (Byte.eqb c Byte.x00); lia.
Qed.

(** The loop stops after [key_bytes] steps, at the end of the region or on
    a null byte. *)
Lemma key_loop_scans (fuel : nat) : forall (buf : list byte) (pos end_ total : Z),
  0 <= pos <= end_ -> end_ <= len buf -> end_ < 2 ^ 32 ->
  0 <= total -> total + (end_ - pos) < 2 ^ 32 ->
  fuel = Z.to_nat (end_ - pos) ->
  let k := key_bytes (sub buf pos end_) in
  key_loop fuel buf pos end_ total = Returns (pos + k, total + k)
  /\ (pos + k = end_ \/ (pos + k < end_ /\ index buf (pos + k) = Returns Byte.x00)).
Proof.
  induction fuel as [|fuel IH]; intros buf pos end_ total Hpos Hend H32 Htot Hsum Hfuel k.
  - assert (end_ = pos) by lia. subst end_ k.
    rewrite sub_empty. simpl. rewrite !Z.add_0_r. split; [reflexivity | left; reflexivity].
  - assert (Hlt : pos < end_) by lia.
    destruct (index_in_range buf pos ltac:(lia)) as [c [Hi Hn]].
    subst k. rewrite (sub_cons buf pos end_ c ltac:(lia) Hn).
    cbn [key_loop key_bytes].
    replace (pos <? end_) with true by (symmetry; apply Z.ltb_lt; lia).
    rewrite Hi. cbn [bind].
    destruct (Byte.eqb c Byte.x00) eqn:Ec.
    + rewrite !Z.add_0_r. split; [reflexivity|].
      right. split; [lia|]. apply Byte.byte_dec_bl in Ec. subst c. exact Hi.
    + rewrite (uint32_small (pos + 1)), (uint32_small (total + 1)) by lia.
      destruct (IH buf (pos + 1) end_ (total + 1)) as [Hrun Hexit]; try lia.
      rewrite Hrun. split.
      * f_equal. f_equal; lia.
      * replace (pos + (1 + key_bytes (sub buf (pos + 1) end_)))
          with (pos + 1 + key_bytes (sub buf (pos + 1) end_)) by lia.
        exact Hexit.
Qed.

Lemma clamped_end_range {Document : Type} (v : Value Document) (buf : list byte) :
  clamped_end v buf <= len buf /\ clamped_end v buf < 2 ^ 32.
Proof.
  unfold clamped_end.
  pose proof (uint32_range (len buf)) as Hr.
  pose proof (uint32_le (len buf) (len_nonneg buf)) as Hle.
  destruct (uint32 (len buf) <? offset v) eqn:E.
  - lia.
  - apply Z.ltb_ge in E. lia.
Qed.

(** [validateKey] on a key region that is not inverted: the scan counts
    the bytes before the first null byte of the region; without one the
    key is invalid, with one the terminator is counted too. *)
Lemma validateKey_scans {Document : Type} (v : Value Document) (buf : list byte) :
  data v = Some buf -> 0 <= start v -> start v + 1 <= clamped_end v buf ->
  let k := key_bytes (sub buf (start v + 1) (clamped_end v buf)) in
  validateKey v =
    if start v + 1 + k =? clamped_end v buf then Returns (k, Some InvalidKey)
    else Returns (k + 1, None).
Proof.
  intros Hd Hs Hle k. unfold validateKey. rewrite Hd.
  fold (clamped_end v buf).
  destruct (clamped_end_range v buf) as [Hlen H32].
  rewrite (uint32_small (start v + 1)) by lia.
  destruct (key_loop_scans (Z.to_nat (clamped_end v buf - (start v + 1))) buf
              (start v + 1) (clamped_end v buf) 0) as [Hrun Hexit]; try lia.
  cbv zeta in Hrun, Hexit. rewrite Hrun. fold k. cbn [bind]. rewrite !Z.add_0_l.
  pose proof (key_bytes_range (sub buf (start v + 1) (clamped_end v buf))) as Hk.
  rewrite len_sub in Hk by lia. fold k in Hk, Hexit.
  destruct Hexit as [Heq | [Hlt Hi]].
  - rewrite Heq, Z.eqb_refl. reflexivity.
  - replace (start v + 1 + k =? clamped_end v buf) with false
      by (symmetry; apply Z.eqb_neq; lia).
    rewrite Hi. simpl. rewrite uint32_small by lia. reflexivity.
Qed.

(** On an inverted key region that starts at or past the end of the
    buffer, the test after the loop indexes out of range. *)
Lemma validateKey_inverted {Document : Type} (v : Value Document) (buf : list byte) :
  data v = Some buf -> 0 <= start v -> start v + 1 < 2 ^ 32 ->
  clamped_end v buf < start v + 1 -> len buf <= start v + 1 ->
  validateKey v = Panics IndexOutOfRange.
Proof.
  intros Hd Hs H32 Hinv Hlen. unfold validateKey. rewrite Hd.
  fold (clamped_end v buf).
  rewrite (uint32_small (start v + 1)) by lia.
  replace (Z.to_nat (clamped_end v buf - (start v + 1))) with 0%nat by lia.
  simpl key_loop. simpl bind.
  replace (start v + 1 =? clamped_end v buf) with false
    by (symmetry; apply Z.eqb_neq; lia).
  rewrite index_out_of_range by lia. reflexivity.
Qed.

(** ** Properties of validation, key access and equality *)

Section Properties.

Context {Document Writer : Type} {pkg : Package Document Writer}.

Implicit Types (e : option (Element Document)) (v : Value Document).

Lemma Validate_key_error v (scanned : Z) (err : error) :
  validateKey v = Returns (scanned, Some err) ->
  Validate (Some (mkElement (Some v))) = Returns (uint32 (1 + scanned), Some err).
Proof. intros H. unfold Validate. cbn [value]. rewrite H. reflexivity. Qed.

Lemma Validate_payload v (keysize payload : Z) (err : option error) :
  validateKey v = Returns (keysize, None) ->
  value_validate v false = Returns (payload, err) ->
  Validate (Some (mkElement (Some v))) =
    Returns (uint32 (uint32 (1 + keysize) + payload), err).
Proof.
  intros Hk Hv. unfold Validate. cbn [value]. rewrite Hk. cbn [bind].
  rewrite Hv. cbn [bind]. destruct err; reflexivity.
Qed.

(** C4.  [Validate] reports [NilElement] with size 0 on a nil element and
    [UninitializedElement] on a nil value (size 0) or an absent buffer
    (size 1, the tag).  On every later failure it returns the size summed
    so far with the first error: one for the tag plus the key bytes
    scanned when the key has no terminator ([InvalidKey]), and tag, key and
    the payload's partial size when the payload's validation fails. *)
Theorem Validate_reports_partial_size :
  Validate None = Returns (0, Some NilElement)
  /\ Validate (Some (mkElement None)) = Returns (0, Some UninitializedElement)
  /\ (forall v, data v = None ->
        Validate (Some (mkElement (Some v))) = Returns (1, Some UninitializedElement))
  /\ (forall v buf, data v = Some buf ->
        0 <= start v -> start v + 1 <= clamped_end v buf ->
        let k := key_bytes (sub buf (start v + 1) (clamped_end v buf)) in
        start v + 1 + k = clamped_end v buf ->
        Validate (Some (mkElement (Some v))) = Returns (1 + k, Some InvalidKey))
  /\ (forall v (scanned : Z) (err : error),
        validateKey v = Returns (scanned, Some err) ->
        Validate (Some (mkElement (Some v))) = Returns (uint32 (1 + scanned), Some err))
  /\ (forall v (keysize payload : Z) (err : error),
        validateKey v = Returns (keysize, None) ->
        value_validate v false = Returns (payload, Some err) ->
        Validate (Some (mkElement (Some v))) =
          Returns (uint32 (uint32 (1 + keysize) + payload), Some err)).
Proof.
  split; [reflexivity|]. split; [reflexivity|].
  split.
  { intros v Hd. unfold Validate, validateKey. cbn [value]. rewrite Hd. reflexivity. }
  split.
  { intros v buf Hd Hs Hle k Hk.
    pose proof (validateKey_scans v buf Hd Hs Hle) as Hscan.
    cbv zeta in Hscan. fold k in Hscan.
    rewrite Hk, Z.eqb_refl in Hscan.
    rewrite (Validate_key_error v k InvalidKey Hscan).
    destruct (clamped_end_range v buf) as [_ H32].
    pose proof (key_bytes_range (sub buf (start v + 1) (clamped_end v buf))) as Hr.
    fold k in Hr. rewrite uint32_small by lia. reflexivity. }
  split.
  { intros v scanned err H. apply Validate_key_error. exact H. }
  intros v keysize payload err Hk Hv. apply (Validate_payload v keysize payload (Some err) Hk Hv).
Qed.

(** C5.  The element with start 0, offset 0 and the one-byte buffer [02]
    has its buffer set and no null byte in its key region, yet [Validate]
    does not fail with [InvalidKey]: the loop does not run, [pos] is past
    [end], and the test after the loop reads [data[1]] and panics.  With
    the buffer [02 00] the same test finds a null byte past [end] and the
    key passes. *)
Theorem Validate_panics_on_inverted_key_region :
  Validate (Some (mkElement (Some (mkValue 0 0 (Some [Byte.x02]) None))))
    = Panics IndexOutOfRange
  /\ validateKey (mkValue 0 0 (Some [Byte.x02; Byte.x00]) (@None Document))
       = Returns (1, None).
Proof. split; reflexivity. Qed.

Lemma KeyOK_initialized e (el : Element Document) v (buf : list byte) :
  e = Some el -> value el = Some v -> offset v <> 0 -> data v = Some buf ->
  KeyOK e =
    (k <- slice buf (uint32 (start v + 1)) (uint32 (offset v - 1)) ;; Returns (k, true)).
Proof.
  intros -> Hv Ho Hd. unfold KeyOK. rewrite Hv, Hd.
  replace (offset v =? 0) with false by (symmetry; apply Z.eqb_neq; exact Ho).
  reflexivity.
Qed.

Lemma KeyOK_uninitialized e : uninitialized e -> KeyOK e = Returns ([], false).
Proof.
  unfold uninitialized, KeyOK. destruct e as [el|]; [|reflexivity].
  destruct (value el) as [v|]; [|reflexivity].
  intros [Ho | Hd].
  - rewrite Ho. reflexivity.
  - rewrite Hd. destruct (offset v =? 0); reflexivity.
Qed.

Lemma KeyOK_not_found e (k : list byte) :
  KeyOK e = Returns (k, false) -> uninitialized e.
Proof.
  unfold uninitialized, KeyOK. destruct e as [el|]; [|intros _; exact I].
  destruct (value el) as [v|]; [|intros _; exact I].
  destruct (offset v =? 0) eqn:Eo.
  - intros _. left. apply Z.eqb_eq. exact Eo.
  - destruct (data v) as [buf|]; [|intros _; right; reflexivity].
    destruct (slice buf (uint32 (start v + 1)) (uint32 (offset v - 1))); simpl; discriminate.
Qed.

(** C8, as the code has it.  [KeyOK] reports not-found, with the empty
    key and without a panic, exactly on the elements it takes for
    uninitialized: a nil element, a nil value, offset 0 or an absent
    buffer.  On every other element it returns the bytes
    [data[start+1 : offset-1]] with found = true, and panics when that
    range is out of bounds.  [Key] panics with [UninitializedElement]
    exactly when [KeyOK] reports not-found, and returns a key exactly when
    [KeyOK] finds it. *)
Theorem KeyOK_not_found_iff_uninitialized e :
  (uninitialized e <-> KeyOK e = Returns ([], false))
  /\ (forall k : list byte, KeyOK e = Returns (k, false) -> k = [])
  /\ (forall (el : Element Document) v (buf : list byte),
        e = Some el -> value el = Some v -> offset v <> 0 -> data v = Some buf ->
        KeyOK e =
          (k <- slice buf (uint32 (start v + 1)) (uint32 (offset v - 1)) ;;
           Returns (k, true)))
  /\ (Key e = Panics (Thrown UninitializedElement)
        <-> exists k : list byte, KeyOK e = Returns (k, false))
  /\ (forall k : list byte, Key e = Returns k <-> KeyOK e = Returns (k, true)).
Proof.
  split.
  { split; [apply KeyOK_uninitialized | apply KeyOK_not_found]. }
  split.
  { intros k H. pose proof (KeyOK_uninitialized e (KeyOK_not_found e k H)) as H'.
    rewrite H in H'. inversion H'. reflexivity. }
  split.
  { intros el v buf. apply KeyOK_initialized. }
  split.
  - unfold Key. destruct (KeyOK e) as [[k ok]|p] eqn:E; cbn [bind].
    + destruct ok; simpl; split; intros H.
      * discriminate.
      * destruct H as [k' H]. discriminate.
      * exists k. reflexivity.
      * reflexivity.
    + split; intros H.
      * unfold KeyOK in E.
        destruct e as [el|]; [|discriminate].
        destruct (value el) as [v|]; [|discriminate].
        destruct (offset v =? 0); [discriminate|].
        destruct (data v) as [buf|]; [|discriminate].
        unfold slice in E.
        destruct ((0 <=? uint32 (start v + 1)) && (uint32 (start v + 1) <=? uint32 (offset v - 1))
                  && (uint32 (offset v - 1) <=? len buf)); simpl in E; [discriminate|].
        inversion E; subst p. discriminate.
      * destruct H as [k' H]. discriminate.
  - intros k. unfold Key. destruct (KeyOK e) as [[k0 ok]|p]; cbn [bind].
    + destruct ok; simpl; split; intros H; inversion H; subst; try reflexivity.
    + split; discriminate.
Qed.

Lemma Key_found e (k : list byte) : KeyOK e = Returns (k, true) -> Key e = Returns k.
Proof. intros H. unfold Key. rewrite H. reflexivity. Qed.

Lemma Key_uninitialized e :
  uninitialized e -> Key e = Panics (Thrown UninitializedElement).
Proof. intros H. unfold Key. rewrite (KeyOK_uninitialized e H). reflexivity. Qed.

Lemma KeyOK_found_value e (k : list byte) :
  KeyOK e = Returns (k, true) ->
  exists (el : Element Document) v, e = Some el /\ value el = Some v.
Proof.
  unfold KeyOK. destruct e as [el|]; [|discriminate].
  destruct (value el) as [v|] eqn:Ev; [|discriminate].
  intros _. exists el, v. split; [reflexivity | exact Ev].
Qed.

Lemma bytes_eqb_eq (a b : list byte) : bytes_eqb a b = true <-> a = b.
Proof.
  unfold bytes_eqb. destruct (list_eq_dec Byte.byte_eq_dec a b) as [E|N].
  - split; intros _; [exact E | reflexivity].
  - split; [discriminate | intros E; contradiction].
Qed.

(** The only panic of [KeyOK] is that of its slice expression. *)
Lemma KeyOK_panic e (p : panic) : KeyOK e = Panics p -> p = SliceBoundsOutOfRange.
Proof.
  unfold KeyOK. destruct e as [el|]; [|discriminate].
  destruct (value el) as [v|]; [|discriminate].
  destruct (offset v =? 0); [discriminate|].
  destruct (data v) as [buf|]; [|discriminate].
  unfold slice.
  destruct ((0 <=? uint32 (start v + 1)) && (uint32 (start v + 1) <=? uint32 (offset v - 1))
            && (uint32 (offset v - 1) <=? len buf)); cbn [bind]; [discriminate|].
  intros H. inversion H. reflexivity.
Qed.

Lemma Equal_initialized (el el2 : Element Document) v v2 (k k2 : list byte) :
  value el = Some v -> value el2 = Some v2 ->
  KeyOK (Some el) = Returns (k, true) -> KeyOK (Some el2) = Returns (k2, true) ->
  Equal (Some el) (Some el2) =
    if bytes_eqb k k2 then value_Equal v v2 else Returns false.
Proof.
  intros Hv Hv2 Hk Hk2. unfold Equal.
  rewrite (Key_found _ _ Hk), (Key_found _ _ Hk2). cbn [bind].
  rewrite Hv, Hv2. destruct (bytes_eqb k k2); reflexivity.
Qed.

(** C9, as the code has it.  [Equal] returns true when both pointers are
    nil and false, without a panic, when exactly one is.  For two non-nil
    elements whose keys [KeyOK] finds it compares the keys and then
    delegates to the values' [Equal]; so it returns true exactly when both
    are nil, or both have the same key and equal values.  For two non-nil
    elements it reads the key of the first and then the key of the second
    with [Key], and the first of these calls that panics decides: it
    panics with [UninitializedElement] when the first element is
    uninitialized (nil value, offset 0 or absent buffer), or when the key
    of the first is found and the second is uninitialized; and with the
    panic of the slice expression when the key range of the first is out
    of bounds, or when the key of the first is found and the key range of
    the second is out of bounds. *)
Theorem Equal_compares_keys_then_values :
  Equal None None = Returns true
  /\ (forall el : Element Document,
        Equal None (Some el) = Returns false /\ Equal (Some el) None = Returns false)
  /\ (forall (el el2 : Element Document) v v2 (k k2 : list byte),
        value el = Some v -> value el2 = Some v2 ->
        KeyOK (Some el) = Returns (k, true) -> KeyOK (Some el2) = Returns (k2, true) ->
        Equal (Some el) (Some el2) =
          if bytes_eqb k k2 then value_Equal v v2 else Returns false)
  /\ (forall e e2,
        Equal e e2 = Returns true <->
        (e = None /\ e2 = None)
        \/ exists (el el2 : Element Document) v v2 (k : list byte),
             e = Some el /\ e2 = Some el2 /\ value el = Some v /\ value el2 = Some v2
             /\ KeyOK e = Returns (k, true) /\ KeyOK e2 = Returns (k, true)
             /\ value_Equal v v2 = Returns true)
  /\ (forall el el2 : Element Document,
        uninitialized (Some el) ->
        Equal (Some el) (Some el2) = Panics (Thrown UninitializedElement))
  /\ (forall (el el2 : Element Document) (k : list byte),
        KeyOK (Some el) = Returns (k, true) -> uninitialized (Some el2) ->
        Equal (Some el) (Some el2) = Panics (Thrown UninitializedElement))
  /\ (forall (el el2 : Element Document) (p : panic),
        KeyOK (Some el) = Panics p ->
        p = SliceBoundsOutOfRange /\ Equal (Some el) (Some el2) = Panics p)
  /\ (forall (el el2 : Element Document) (k : list byte) (p : panic),
        KeyOK (Some el) = Returns (k, true) -> KeyOK (Some el2) = Panics p ->
        p = SliceBoundsOutOfRange /\ Equal (Some el) (Some el2) = Panics p).
Proof.
  split; [reflexivity|].
  split; [intros el; split; reflexivity|].
  split; [apply Equal_initialized|].
  split.
  { intros e e2. split.
    - destruct e as [el|], e2 as [el2|]; cbn [Equal];
        try discriminate; [|intros _; left; split; reflexivity].
      intros H. right.
      destruct (KeyOK (Some el)) as [[k ok]|p] eqn:Ek;
        [|unfold Key in H; rewrite Ek in H; discriminate].
      destruct ok; [|unfold Key in H; rewrite Ek in H; discriminate].
      rewrite (Key_found _ _ Ek) in H. cbn [bind] in H.
      destruct (KeyOK (Some el2)) as [[k2 ok2]|p] eqn:Ek2;
        [|unfold Key in H; rewrite Ek2 in H; discriminate].
      destruct ok2; [|unfold Key in H; rewrite Ek2 in H; discriminate].
      rewrite (Key_found _ _ Ek2) in H. cbn [bind] in H.
      destruct (KeyOK_found_value _ _ Ek) as [el' [v [He Hv]]].
      destruct (KeyOK_found_value _ _ Ek2) as [el2' [v2 [He2 Hv2]]].
      inversion He; subst el'. inversion He2; subst el2'.
      rewrite Hv, Hv2 in H. cbn [deref bind] in H.
      destruct (bytes_eqb k k2) eqn:Eb; [|discriminate].
      apply bytes_eqb_eq in Eb. subst k2. simpl in H.
      exists el, el2, v, v2, k. repeat split; assumption.
    - intros [[-> ->] | [el [el2 [v [v2 [k [-> [-> [Hv [Hv2 [Hk [Hk2 He]]]]]]]]]]]].
      + reflexivity.
      + rewrite (Equal_initialized el el2 v v2 k k Hv Hv2 Hk Hk2).
        replace (bytes_eqb k k) with true by (symmetry; apply bytes_eqb_eq; reflexivity).
        exact He. }
  split.
  { intros el el2 Hu. unfold Equal. rewrite (Key_uninitialized _ Hu). reflexivity. }
  split.
  { intros el el2 k Hk Hu. unfold Equal.
    rewrite (Key_found _ _ Hk), (Key_uninitialized _ Hu). reflexivity. }
  split.
  - intros el el2 p Hk. split; [exact (KeyOK_panic _ p Hk)|].
    unfold Equal, Key. rewrite Hk. reflexivity.
  - intros el el2 k p Hk Hk2. split; [exact (KeyOK_panic _ p Hk2)|].
    unfold Equal. rewrite (Key_found _ _ Hk). cbn [bind].
    unfold Key. rewrite Hk2. reflexivity.
Qed.

(** ** Properties of serialization *)

Lemma readi32_field (buf : list byte) (at_ : Z) :
  0 <= at_ -> at_ + 4 <= len buf ->
  readi32 (sub buf at_ (at_ + 4)) = Returns (field_i32 buf at_).
Proof.
  intros H1 H2. unfold readi32.
  rewrite len_sub by lia.
  replace (at_ + 4 - at_ <? 4) with false by (symmetry; apply Z.ltb_ge; lia).
  reflexivity.
Qed.

Lemma firstn_4_le_split (i : Z) : firstn 4 (le_split 4 i) = le_split 4 i.
Proof. reflexivity. Qed.

(** The field just written by [put_i32] decodes to what was written. *)
Lemma field_put_i32 (buf : list byte) (at_ i : Z) :
  0 <= at_ -> at_ + 4 <= len buf -> field_i32 (put_i32 buf at_ i) at_ = int32 i.
Proof.
  intros H1 H2. unfold field_i32.
  rewrite sub_put_i32, firstn_4_le_split, le_combine_split by assumption.
  apply int32_congr. change (Z.of_nat 4 * 8) with 32. apply Z.mod_mod. lia.
Qed.

Lemma sub_firstn (s : list byte) (n lo hi : Z) :
  0 <= lo -> hi <= n -> sub (firstn (Z.to_nat n) s) lo hi = sub s lo hi.
Proof.
  intros Hlo Hn. unfold sub.
  rewrite skipn_firstn_comm, firstn_firstn. f_equal. lia.
Qed.

(** [put_i32] leaves the bytes before and after the field alone. *)
Lemma sub_put_i32_before (buf : list byte) (at_ i lo hi : Z) :
  0 <= lo -> hi <= at_ -> at_ + 4 <= len buf ->
  sub (put_i32 buf at_ i) lo hi = sub buf lo hi.
Proof.
  intros Hlo Hhi Hlen.
  rewrite <- (sub_firstn (put_i32 buf at_ i) at_ lo hi) by lia.
  rewrite <- (sub_firstn buf at_ lo hi) by lia.
  f_equal. unfold put_i32.
  rewrite firstn_app, firstn_firstn, Nat.min_id, length_firstn.
  replace (Z.to_nat at_ - Nat.min (Z.to_nat at_) (length buf))%nat with 0%nat
    by (unfold len in Hlen; lia).
  simpl. rewrite app_nil_r. reflexivity.
Qed.

Lemma skipn_put_i32 (buf : list byte) (at_ i : Z) :
  0 <= at_ -> at_ + 4 <= len buf ->
  skipn (Z.to_nat (at_ + 4)) (put_i32 buf at_ i) = skipn (Z.to_nat (at_ + 4)) buf.
Proof.
  intros H1 H2. unfold put_i32.
  rewrite app_assoc.
  assert (Hl : length (firstn (Z.to_nat at_) buf ++ le_split 4 i) = Z.to_nat (at_ + 4)).
  { rewrite length_app, length_firstn, length_le_split. unfold len in H2. lia. }
  rewrite skipn_app, Hl, Nat.sub_diag, skipn_all2 by lia.
  reflexivity.
Qed.

Lemma sub_put_i32_after (buf : list byte) (at_ i lo hi : Z) :
  0 <= at_ -> at_ + 4 <= lo -> at_ + 4 <= len buf ->
  sub (put_i32 buf at_ i) lo hi = sub buf lo hi.
Proof.
  intros Hat Hlo Hlen. unfold sub.
  replace (Z.to_nat lo) with (Z.to_nat (lo - (at_ + 4)) + Z.to_nat (at_ + 4))%nat by lia.
  rewrite <- !skipn_skipn, skipn_put_i32 by lia. reflexivity.
Qed.

Lemma int32_sub_l (a b : Z) : int32 (int32 a - b) = int32 (a - b).
Proof.
  apply int32_congr.
  rewrite <- Zminus_mod_idemp_l, int32_mod, Zminus_mod_idemp_l. reflexivity.
Qed.

Lemma uint32_int32 (a : Z) : uint32 (int32 a) = uint32 a.
Proof. unfold uint32. apply int32_mod. Qed.

Lemma uint32_add_r (a b : Z) : uint32 (a + uint32 b) = uint32 (a + b).
Proof. unfold uint32. apply Zplus_mod_idemp_r. Qed.

(** The value that the raw code-with-scope path encodes. *)
Lemma raw_outer_length (scopeStart scopeLength off : Z) :
  int32 (int32 (int32 scopeStart + scopeLength) - int32 off)
  = int32 (scopeStart + scopeLength - off).
Proof.
  rewrite int32_sub_r, int32_sub_l.
  replace (int32 scopeStart + scopeLength - off) with (int32 scopeStart + (scopeLength - off)) by lia.
  rewrite int32_add_l. f_equal. lia.
Qed.

(** The value that the override path encodes, and the end of the code
    string it computes. *)
Lemma override_outer_length (codeLength scopeSize : Z) :
  int32 (int32 (4 + 4 + codeLength) + int32 scopeSize)
  = int32 (4 + 4 + codeLength + scopeSize).
Proof. rewrite int32_add_r, int32_add_l. reflexivity. Qed.

Lemma override_code_end (off codeLength : Z) :
  uint32 (off + uint32 (int32 (4 + 4 + codeLength))) = uint32 (off + 4 + 4 + codeLength).
Proof. rewrite uint32_int32, uint32_add_r. f_equal. lia. Qed.

Lemma writeByteSlice_too_small v (key : bool) (start_ size : Z) (b : list byte) :
  len b < needed v key start_ size ->
  writeByteSlice (Some (mkElement (Some v))) key start_ size b
    = Returns (mkWritten (bytes (data v)) b 0 (Some ErrTooSmall)).
Proof.
  intros H. unfold writeByteSlice. cbn [deref bind value].
  replace (len b <? needed v key start_ size) with true
    by (symmetry; apply Z.ltb_lt; exact H).
  reflexivity.
Qed.

Lemma writeByteSlice_passes v (key : bool) (start_ size : Z) (b : list byte) :
  needed v key start_ size <= len b ->
  writeByteSlice (Some (mkElement (Some v))) key start_ size b
    = write_switch v (bytes (data v)) key
        (if key then uint (start v) else uint (offset v)) start_ size b.
Proof.
  intros H. unfold writeByteSlice. cbn [deref bind value].
  replace (len b <? needed v key start_ size) with false
    by (symmetry; apply Z.ltb_ge; exact H).
  reflexivity.
Qed.

(** Without an override every tag but 0x0F reaches the plain copy. *)
Lemma write_switch_verbatim v (buf : list byte) (key : bool) (from start_ size : Z)
  (b : list byte) (tag : byte) :
  d v = None -> index buf (start v) = Returns tag -> tag <> Byte.x0f ->
  write_switch v buf key from start_ size b = copy_verbatim v buf from start_ size b.
Proof.
  intros Hd Hi Ht. unfold write_switch. rewrite Hi. cbn [bind]. rewrite Hd.
  destruct tag; try reflexivity. contradiction Ht. reflexivity.
Qed.

Lemma write_switch_code_with_scope v (buf : list byte) (key : bool) (from start_ size : Z)
  (b : list byte) :
  index buf (start v) = Returns Byte.x0f ->
  write_switch v buf key from start_ size b
    = write_code_with_scope v buf key from start_ size b.
Proof. intros Hi. unfold write_switch. rewrite Hi. reflexivity. Qed.

Lemma write_switch_document v (doc : Document) (buf : list byte) (key : bool)
  (from start_ size : Z) (b : list byte) :
  d v = Some doc -> index buf (start v) = Returns Byte.x03 ->
  write_switch v buf key from start_ size b
    = write_container doc_writeByteSlice v doc buf key from start_ size b.
Proof. intros Hd Hi. unfold write_switch. rewrite Hi. cbn [bind]. rewrite Hd. reflexivity. Qed.

Lemma write_switch_array v (doc : Document) (buf : list byte) (key : bool)
  (from start_ size : Z) (b : list byte) :
  d v = Some doc -> index buf (start v) = Returns Byte.x04 ->
  write_switch v buf key from start_ size b
    = write_container arr_writeByteSlice v doc buf key from start_ size b.
Proof. intros Hd Hi. unfold write_switch. rewrite Hi. cbn [bind]. rewrite Hd. reflexivity. Qed.

Lemma write_from_uint v (key : bool) :
  0 <= start v < 2 ^ 32 -> 0 <= offset v < 2 ^ 32 ->
  (if key then uint (start v) else uint (offset v)) = write_from v key.
Proof.
  intros Hs Ho. unfold write_from. destruct key; apply uint_small; lia.
Qed.

(** The plain copy, when its slices are in range. *)
Lemma copy_verbatim_in_range v (buf : list byte) (from start_ size : Z) (b : list byte) :
  0 <= from <= uint32 (start v + size) -> uint32 (start v + size) <= len buf ->
  0 <= start_ <= len b -> len buf < 2 ^ 63 ->
  copy_verbatim v buf from start_ size b
    = Returns (mkWritten buf
                 (overwrite b start_ (sub buf from (uint32 (start v + size))))
                 (copied b start_ (sub buf from (uint32 (start v + size)))) None).
Proof.
  intros Hfrom Hhi Hstart Hlen. unfold copy_verbatim.
  rewrite slice_in_range by lia. cbn [bind].
  rewrite copy_in_range by lia. cbn [bind].
  pose proof (copied_range b start_ (sub buf from (uint32 (start v + size))) Hstart) as Hc.
  rewrite len_sub in Hc by lia.
  rewrite int64_small by lia. reflexivity.
Qed.

Lemma copy_verbatim_returns v (buf : list byte) (from start_ size : Z) (b : list byte)
  (r : written) :
  copy_verbatim v buf from start_ size b = Returns r ->
  failure r = None /\ src_after r = buf.
Proof.
  unfold copy_verbatim.
  destruct (slice buf from (uint32 (start v + size))) as [src|p]; [|discriminate].
  cbn [bind]. destruct (copy b start_ src) as [[b' n]|p]; [|discriminate].
  cbn [bind]. intros H. inversion H. split; reflexivity.
Qed.

(** The raw code-with-scope path: the outer length is recomputed from the
    scope's own length prefix and patched into the element's buffer, then
    the patched buffer is copied. *)
Lemma write_code_with_scope_raw v (buf : list byte) (key : bool) (start_ size : Z)
  (b : list byte) :
  d v = None ->
  0 <= start v < 2 ^ 32 -> 0 <= offset v ->
  offset v + 8 <= len buf -> offset v + 8 < 2 ^ 32 ->
  scope_start v buf + 4 <= len buf -> scope_start v buf + 4 < 2 ^ 32 ->
  write_from v key <= uint32 (start v + size) -> uint32 (start v + size) <= len buf ->
  0 <= start_ <= len b -> len buf < 2 ^ 63 ->
  let patched :=
    put_i32 buf (offset v) (int32 (scope_start v buf + scope_length v buf - offset v)) in
  let copy_of := sub patched (write_from v key) (uint32 (start v + size)) in
  write_code_with_scope v buf key (write_from v key) start_ size b
    = Returns (mkWritten patched (overwrite b start_ copy_of) (copied b start_ copy_of) None).
Proof.
  intros Hd Hs Ho Hcode H32 Hscope Hs32 Hfrom Hhi Hstart Hlen patched copy_of.
  unfold write_code_with_scope.
  rewrite (uint32_small (offset v + 4)) by lia.
  rewrite (uint32_small (offset v + 4 + 4)) by lia.
  rewrite slice_in_range by lia. cbn [bind].
  rewrite readi32_field by lia. cbn [bind]. fold (code_length v buf).
  rewrite Hd. fold (scope_start v buf).
  pose proof (uint32_range (offset v + 4 + 4 + uint32 (code_length v buf))) as Hr.
  fold (scope_start v buf) in Hr.
  rewrite (uint32_small (scope_start v buf + 4)) by lia.
  rewrite slice_in_range by lia. cbn [bind].
  rewrite readi32_field by lia. cbn [bind]. fold (scope_length v buf).
  rewrite raw_outer_length.
  rewrite (uint_small (offset v)) by lia.
  rewrite Int32_Encode_in_range by lia.
  fold patched.
  assert (Hlp : len patched = len buf) by (apply len_put_i32; lia).
  assert (0 <= write_from v key) by (unfold write_from; destruct key; lia).
  rewrite copy_verbatim_in_range by lia. reflexivity.
Qed.

(** The capacity that the check requires, when nothing wraps around. *)
Lemma needed_exact v (start_ size : Z) :
  0 <= start_ -> 0 <= size < 2 ^ 32 -> start_ + size < 2 ^ 64 ->
  0 <= start v -> start v < offset v -> offset v < 2 ^ 32 ->
  offset v - start v - 1 <= start_ + size ->
  needed v true start_ size = start_ + size
  /\ needed v false start_ size = start_ + size - (offset v - start v - 1).
Proof.
  intros H1 H2 H3 H4 H5 H6 H7. unfold needed.
  rewrite (uint_small size) by lia.
  rewrite (uint_small (start_ + size)) by lia.
  rewrite (uint_small (offset v)), (uint_small (start v)) by lia.
  rewrite (uint_small (offset v - start v)) by lia.
  rewrite (uint_small (offset v - start v - 1)) by lia.
  rewrite uint_small by lia.
  split; reflexivity.
Qed.

(** C3.  [writeByteSlice] checks the capacity before anything else.  The
    capacity required is [needed]: destStart + knownSize with the key, and
    that reduced by the length of the key region, offset - start - 1,
    without it (third part, where no operation wraps around).  Below it
    the call returns 0 and the too-small error and leaves the destination
    and the element's buffer as they were; otherwise the check lets the
    call through to the switch on the tag, and a value without override and
    with a tag other than 0x0F then returns no error at all. *)
Theorem writeByteSlice_checks_capacity v (key : bool) (start_ size : Z) (b : list byte) :
  (len b < needed v key start_ size ->
     writeByteSlice (Some (mkElement (Some v))) key start_ size b
       = Returns (mkWritten (bytes (data v)) b 0 (Some ErrTooSmall)))
  /\ (needed v key start_ size <= len b ->
        writeByteSlice (Some (mkElement (Some v))) key start_ size b
          = write_switch v (bytes (data v)) key
              (if key then uint (start v) else uint (offset v)) start_ size b)
  /\ (0 <= start_ -> 0 <= size < 2 ^ 32 -> start_ + size < 2 ^ 64 ->
      0 <= start v -> start v < offset v -> offset v < 2 ^ 32 ->
      offset v - start v - 1 <= start_ + size ->
        needed v true start_ size = start_ + size
        /\ needed v false start_ size = start_ + size - (offset v - start v - 1))
  /\ (needed v key start_ size <= len b -> d v = None ->
      forall (tag : byte) (r : written),
        index (bytes (data v)) (start v) = Returns tag -> tag <> Byte.x0f ->
        writeByteSlice (Some (mkElement (Some v))) key start_ size b = Returns r ->
        failure r = None).
Proof.
  split; [apply writeByteSlice_too_small|].
  split; [apply writeByteSlice_passes|].
  split; [apply needed_exact|].
  intros Hn Hd tag r Hi Ht Hr.
  rewrite (writeByteSlice_passes v key start_ size b Hn) in Hr.
  rewrite (write_switch_verbatim v _ key _ start_ size b tag Hd Hi Ht) in Hr.
  apply copy_verbatim_returns in Hr. apply Hr.
Qed.

(** C2, as the code has it.  Without an override, once the capacity check
    has passed and with the slices in range: for every tag other than 0x0F
    the call leaves the element's buffer alone, copies
    [buffer[writeFrom : start+knownSize]] to the destination from
    [destStart] on and returns the number of bytes copied, with
    writeFrom = start with the key and offset without.  For tag 0x0F the
    outer length field of the element's buffer is patched first, and what
    is copied is that range of the patched buffer. *)
Theorem writeByteSlice_without_override v (buf : list byte) (key : bool)
  (start_ size : Z) (b : list byte) (tag : byte) :
  data v = Some buf -> d v = None ->
  0 <= start v < 2 ^ 32 -> 0 <= offset v < 2 ^ 32 ->
  index buf (start v) = Returns tag ->
  needed v key start_ size <= len b ->
  write_from v key <= uint32 (start v + size) -> uint32 (start v + size) <= len buf ->
  0 <= start_ <= len b -> len buf < 2 ^ 63 ->
  (tag <> Byte.x0f ->
     let copy_of := sub buf (write_from v key) (uint32 (start v + size)) in
     writeByteSlice (Some (mkElement (Some v))) key start_ size b
       = Returns (mkWritten buf (overwrite b start_ copy_of) (copied b start_ copy_of) None))
  /\ (tag = Byte.x0f ->
      offset v + 8 <= len buf -> offset v + 8 < 2 ^ 32 ->
      scope_start v buf + 4 <= len buf -> scope_start v buf + 4 < 2 ^ 32 ->
      let patched :=
        put_i32 buf (offset v) (int32 (scope_start v buf + scope_length v buf - offset v)) in
      let copy_of := sub patched (write_from v key) (uint32 (start v + size)) in
      writeByteSlice (Some (mkElement (Some v))) key start_ size b
        = Returns (mkWritten patched (overwrite b start_ copy_of)
                     (copied b start_ copy_of) None)).
Proof.
  intros Hdata Hd Hs Ho Hi Hn Hfrom Hhi Hstart Hlen.
  assert (Hwf : 0 <= write_from v key) by (unfold write_from; destruct key; lia).
  split.
  - intros Ht copy_of.
    rewrite (writeByteSlice_passes v key start_ size b Hn).
    rewrite Hdata. cbn [bytes]. rewrite (write_from_uint v key Hs Ho).
    rewrite (write_switch_verbatim v buf key _ start_ size b tag Hd Hi Ht).
    apply copy_verbatim_in_range; lia.
  - intros Ht Hcode H32 Hscope Hs32 patched copy_of. subst tag.
    rewrite (writeByteSlice_passes v key start_ size b Hn).
    rewrite Hdata. cbn [bytes]. rewrite (write_from_uint v key Hs Ho).
    rewrite (write_switch_code_with_scope v buf key _ start_ size b Hi).
    apply write_code_with_scope_raw; lia || assumption.
Qed.

(** C6.  For a code-with-scope element without override, past the
    capacity check and with its fields in range, [writeByteSlice] reads the
    scope's own length prefix at [scopeStart], encodes
    (scopeStart + scopeLength) - offset into the four bytes of the
    element's buffer at [offset], and then copies
    [buffer[writeFrom : start+knownSize]] of the patched buffer; the patched
    field reads back as that length. *)
Theorem writeByteSlice_raw_code_with_scope v (buf : list byte) (key : bool)
  (start_ size : Z) (b : list byte) :
  data v = Some buf -> d v = None ->
  index buf (start v) = Returns Byte.x0f ->
  needed v key start_ size <= len b ->
  0 <= start v < 2 ^ 32 -> 0 <= offset v ->
  offset v + 8 <= len buf -> offset v + 8 < 2 ^ 32 ->
  scope_start v buf + 4 <= len buf -> scope_start v buf + 4 < 2 ^ 32 ->
  write_from v key <= uint32 (start v + size) -> uint32 (start v + size) <= len buf ->
  0 <= start_ <= len b -> len buf < 2 ^ 63 ->
  let outer := int32 (scope_start v buf + scope_length v buf - offset v) in
  let patched := put_i32 buf (offset v) outer in
  let copy_of := sub patched (write_from v key) (uint32 (start v + size)) in
  scope_length v buf = field_i32 buf (scope_start v buf)
  /\ writeByteSlice (Some (mkElement (Some v))) key start_ size b
       = Returns (mkWritten patched (overwrite b start_ copy_of) (copied b start_ copy_of) None)
  /\ readi32 (sub patched (offset v) (offset v + 4)) = Returns outer
  /\ sub patched 0 (offset v) = sub buf 0 (offset v)
  /\ sub patched (offset v + 4) (len buf) = sub buf (offset v + 4) (len buf).
Proof.
  intros Hdata Hd Hi Hn Hs Ho Hcode H32 Hscope Hs32 Hfrom Hhi Hstart Hlen outer patched copy_of.
  split; [reflexivity|].
  split.
  { rewrite (writeByteSlice_passes v key start_ size b Hn).
    rewrite Hdata. cbn [bytes]. rewrite (write_from_uint v key) by lia.
    rewrite (write_switch_code_with_scope v buf key _ start_ size b Hi).
    apply write_code_with_scope_raw; lia || assumption. }
  split.
  { unfold patched. rewrite sub_put_i32 by lia.
    rewrite readi32_le_split. f_equal. unfold outer.
    apply int32_congr. apply int32_mod. }
  split.
  - unfold patched. apply sub_put_i32_before; lia.
  - unfold patched. apply sub_put_i32_after; lia.
Qed.

(** The override path of code with scope, up to the call of the override's
    own write. *)
Lemma write_code_with_scope_override v (doc : Document) (buf : list byte) (key : bool)
  (start_ size scopeSize : Z) (b : list byte) :
  d v = Some doc ->
  0 <= start v < 2 ^ 32 -> 0 <= offset v ->
  offset v + 8 <= len buf -> offset v + 8 < 2 ^ 32 ->
  doc_Validate doc = Returns (scopeSize, None) ->
  write_from v key <= code_end v buf -> code_end v buf <= len buf ->
  0 <= start_ -> start_ + (code_end v buf - write_from v key) <= len b ->
  len b < 2 ^ 63 ->
  let patched :=
    put_i32 buf (offset v) (int32 (4 + 4 + code_length v buf + scopeSize)) in
  let framing := sub patched (write_from v key) (code_end v buf) in
  let next := start_ + (code_end v buf - write_from v key) in
  write_code_with_scope v buf key (write_from v key) start_ size b
    = ('(b', nn, err) <- doc_writeByteSlice doc next scopeSize (overwrite b start_ framing) ;;
       Returns (mkWritten patched b'
                  (int64 (int (code_end v buf - write_from v key + int nn))) err)).
Proof.
  intros Hd Hs Ho Hcode H32 Hval Hfrom Hend Hstart Hfit Hlen patched framing next.
  assert (Hwf : 0 <= write_from v key) by (unfold write_from; destruct key; lia).
  unfold write_code_with_scope.
  rewrite (uint32_small (offset v + 4)) by lia.
  rewrite (uint32_small (offset v + 4 + 4)) by lia.
  rewrite slice_in_range by lia. cbn [bind].
  rewrite readi32_field by lia. cbn [bind]. fold (code_length v buf).
  rewrite Hd, Hval. cbn [bind].
  rewrite override_outer_length, override_code_end.
  fold (code_end v buf).
  rewrite (uint_small (offset v)) by lia.
  rewrite Int32_Encode_in_range by lia.
  fold patched.
  assert (Hlp : len patched = len buf) by (apply len_put_i32; lia).
  rewrite slice_in_range by lia. cbn [bind]. fold framing.
  assert (Hlf : len framing = code_end v buf - write_from v key)
    by (apply len_sub; lia).
  rewrite copy_in_range by lia. cbn [bind].
  rewrite copied_all by lia. rewrite Hlf.
  rewrite Z.add_0_l.
  rewrite (int_small (code_end v buf - write_from v key)) by lia.
  rewrite (uint_small (code_end v buf - write_from v key)) by lia.
  rewrite (uint_small (start_ + (code_end v buf - write_from v key))) by lia.
  fold next. reflexivity.
Qed.

(** C1.  For a code-with-scope element whose override validates to
    [scopeSize], past the capacity check and with its fields in range,
    [writeByteSlice]
    - encodes 4 + 4 + codeLength + scopeSize into the four bytes of the
      element's own buffer at [offset] (the buffer is otherwise unchanged),
    - copies the framing [buffer[writeFrom : codeEnd]] of the patched buffer
      to the destination: tag and key when the key is included, then the
      length field and the code string,
    - and hands the destination, at the offset advanced by that copy, to
      the override's own write with size [scopeSize], whose count and error
      it returns.
    The length field in the destination reads back as the recomputed
    length, also after the override's write when that leaves the bytes
    before its offset alone. *)
Theorem writeByteSlice_code_with_scope_override v (doc : Document) (buf : list byte)
  (key : bool) (start_ size scopeSize : Z) (b : list byte) :
  data v = Some buf -> d v = Some doc ->
  index buf (start v) = Returns Byte.x0f ->
  needed v key start_ size <= len b ->
  0 <= start v < 2 ^ 32 -> 0 <= offset v ->
  offset v + 8 <= len buf -> offset v + 8 < 2 ^ 32 ->
  doc_Validate doc = Returns (scopeSize, None) ->
  write_from v key <= offset v -> offset v + 4 <= code_end v buf ->
  code_end v buf <= len buf ->
  0 <= start_ -> start_ + (code_end v buf - write_from v key) <= len b ->
  len b < 2 ^ 63 ->
  let outer := int32 (4 + 4 + code_length v buf + scopeSize) in
  let patched := put_i32 buf (offset v) outer in
  let framing := sub patched (write_from v key) (code_end v buf) in
  let handed := overwrite b start_ framing in
  let next := start_ + (code_end v buf - write_from v key) in
  let header := start_ + (offset v - write_from v key) in
  writeByteSlice (Some (mkElement (Some v))) key start_ size b
    = ('(b', nn, err) <- doc_writeByteSlice doc next scopeSize handed ;;
       Returns (mkWritten patched b'
                  (int64 (int (code_end v buf - write_from v key + int nn))) err))
  /\ readi32 (sub patched (offset v) (offset v + 4)) = Returns outer
  /\ sub patched 0 (offset v) = sub buf 0 (offset v)
  /\ sub patched (offset v + 4) (len buf) = sub buf (offset v + 4) (len buf)
  /\ sub handed start_ next = framing
  /\ sub framing (offset v + 4 - write_from v key) (code_end v buf - write_from v key)
       = sub buf (offset v + 4) (code_end v buf)
  /\ readi32 (sub handed header (header + 4)) = Returns outer
  /\ (forall (b' : list byte) (nn : Z) (err : option error),
        doc_writeByteSlice doc next scopeSize handed = Returns (b', nn, err) ->
        firstn (Z.to_nat next) b' = firstn (Z.to_nat next) handed ->
        exists r : written,
          writeByteSlice (Some (mkElement (Some v))) key start_ size b = Returns r
          /\ src_after r = patched /\ dst_after r = b' /\ failure r = err
          /\ sub (dst_after r) start_ next = framing
          /\ readi32 (sub (dst_after r) header (header + 4)) = Returns outer).
Proof.
  intros Hdata Hd Hi Hn Hs Ho Hcode H32 Hval Hfrom Hhdr Hend Hstart Hfit Hlen
         outer patched framing handed next header.
  assert (Hwf : 0 <= write_from v key) by (unfold write_from; destruct key; lia).
  assert (Hlp : len patched = len buf) by (apply len_put_i32; lia).
  assert (Hlf : len framing = code_end v buf - write_from v key)
    by (apply len_sub; lia).
  assert (Hrun : writeByteSlice (Some (mkElement (Some v))) key start_ size b
    = ('(b', nn, err) <- doc_writeByteSlice doc next scopeSize handed ;;
       Returns (mkWritten patched b'
                  (int64 (int (code_end v buf - write_from v key + int nn))) err))).
  { rewrite (writeByteSlice_passes v key start_ size b Hn).
    rewrite Hdata. cbn [bytes]. rewrite (write_from_uint v key) by lia.
    rewrite (write_switch_code_with_scope v buf key _ start_ size b Hi).
    apply write_code_with_scope_override; lia || assumption. }
  assert (Hread : readi32 (sub patched (offset v) (offset v + 4)) = Returns outer).
  { unfold patched. rewrite sub_put_i32 by lia.
    rewrite readi32_le_split. f_equal. unfold outer.
    apply int32_congr. apply int32_mod. }
  assert (Hwhole : sub handed start_ next = framing).
  { unfold handed, next.
    replace start_ with (start_ + 0) at 2 by lia. rewrite <- Hlf.
    rewrite sub_overwrite by lia.
    unfold sub. rewrite Z.sub_0_r. simpl skipn.
    unfold len. rewrite Nat2Z.id. apply firstn_all. }
  assert (Hhead : readi32 (sub handed header (header + 4)) = Returns outer).
  { unfold handed, header.
    replace (start_ + (offset v - write_from v key) + 4)
      with (start_ + (offset v - write_from v key + 4)) by lia.
    rewrite sub_overwrite by lia.
    unfold framing. rewrite sub_sub by lia.
    replace (write_from v key + (offset v - write_from v key)) with (offset v) by lia.
    replace (write_from v key + (offset v - write_from v key + 4)) with (offset v + 4) by lia.
    exact Hread. }
  split; [exact Hrun|].
  split; [exact Hread|].
  split; [unfold patched; apply sub_put_i32_before; lia|].
  split; [unfold patched; apply sub_put_i32_after; lia|].
  split; [exact Hwhole|].
  split.
  { unfold framing. rewrite sub_sub by lia.
    replace (write_from v key + (offset v + 4 - write_from v key)) with (offset v + 4) by lia.
    replace (write_from v key + (code_end v buf - write_from v key)) with (code_end v buf) by lia.
    unfold patched. apply sub_put_i32_after; lia. }
  split; [exact Hhead|].
  intros b' nn err Hw Hpre.
  exists (mkWritten patched b' (int64 (int (code_end v buf - write_from v key + int nn))) err).
  rewrite Hrun, Hw. cbn [bind src_after dst_after failure].
  repeat split.
  - rewrite <- (sub_firstn b' next) by lia. rewrite Hpre.
    rewrite sub_firstn by lia. exact Hwhole.
  - rewrite <- (sub_firstn b' next) by (unfold header, next; lia). rewrite Hpre.
    rewrite sub_firstn by (unfold header, next; lia). exact Hhead.
Qed.

(** With an override, an embedded document or array copies its header
    (tag and key) and delegates the rest; whatever the delegate returns as
    its error is returned. *)
Lemma write_container_with_key
  (write : Document -> Z -> Z -> list byte -> outcome (list byte * Z * option error))
  v (doc : Document) (buf : list byte) (start_ size : Z) (b : list byte) :
  0 <= start v -> start v <= offset v -> offset v <= len buf ->
  0 <= start_ -> start_ + (offset v - start v) <= len b -> len b < 2 ^ 63 ->
  write_container write v doc buf true (start v) start_ size b
    = ('(b', nn, err) <-
         write doc (start_ + (offset v - start v))
           (uint32 (size - uint32 (offset v - start v)))
           (overwrite b start_ (sub buf (start v) (offset v))) ;;
       Returns (mkWritten buf b' (int64 (int (offset v - start v + int nn))) err)).
Proof.
  intros Hs Hso Ho Hstart Hfit Hlen. unfold write_container.
  rewrite slice_in_range by lia. cbn [bind].
  assert (Hl : len (sub buf (start v) (offset v)) = offset v - start v)
    by (apply len_sub; lia).
  rewrite copy_in_range by lia. cbn [bind].
  rewrite copied_all by lia. rewrite Hl, Z.add_0_l.
  rewrite (int_small (offset v - start v)) by lia.
  rewrite (uint_small (offset v - start v)) by lia.
  rewrite (uint_small (start_ + (offset v - start v))) by lia.
  reflexivity.
Qed.

Lemma write_code_with_scope_invalid_scope v (doc : Document) (buf : list byte)
  (key : bool) (from start_ size n : Z) (b : list byte) (err : error) :
  d v = Some doc -> 0 <= offset v ->
  offset v + 8 <= len buf -> offset v + 8 < 2 ^ 32 ->
  doc_Validate doc = Returns (n, Some err) ->
  write_code_with_scope v buf key from start_ size b
    = Returns (mkWritten buf b 0 (Some err)).
Proof.
  intros Hd Ho Hcode H32 Hval. unfold write_code_with_scope.
  rewrite (uint32_small (offset v + 4)) by lia.
  rewrite (uint32_small (offset v + 4 + 4)) by lia.
  rewrite slice_in_range by lia. cbn [bind].
  rewrite readi32_field by lia. cbn [bind].
  rewrite Hd, Hval. reflexivity.
Qed.

Lemma writeElement_invalid e (key : bool) (start_ : Z) (w : target) (n : Z) (err : error) :
  Validate e = Returns (n, Some err) ->
  writeElement e key start_ w = Returns (e, w, 0, Some err).
Proof. intros H. unfold writeElement. rewrite H. reflexivity. Qed.

(** C7, as the code has it.  [writeByteSlice] returns the error of the
    override's [Validate] (code with scope) or of the override's own write
    (embedded document, array, code with scope) as it got it, and so does
    [MarshalBSON]; the public [WriteElement] on a byte slice returns 0 and
    the too-small error for every error of [writeByteSlice], whatever it
    was.  Only the errors of the element's own validation reach the caller
    of [WriteElement] unchanged. *)
Theorem WriteElement_reports_write_errors_as_too_small :
  (forall e (start_ size : Z) (b : list byte) (r : written) (err : error),
     Validate e = Returns (size, None) ->
     writeByteSlice e true start_ size b = Returns r -> failure r = Some err ->
     WriteElement e start_ (ByteSlice b)
       = Returns (with_data e (src_after r), ByteSlice (dst_after r), 0, Some ErrTooSmall))
  /\ (forall e (size : Z) (r : written) (err : error),
        Validate e = Returns (size, None) ->
        writeByteSlice e true 0 size (make size) = Returns r -> failure r = Some err ->
        MarshalBSON e = Returns (with_data e (src_after r), None, Some err))
  /\ (forall v (doc : Document) (buf : list byte) (key : bool) (start_ size n : Z)
             (b : list byte) (err : error),
        data v = Some buf -> d v = Some doc -> index buf (start v) = Returns Byte.x0f ->
        needed v key start_ size <= len b ->
        0 <= offset v -> offset v + 8 <= len buf -> offset v + 8 < 2 ^ 32 ->
        doc_Validate doc = Returns (n, Some err) ->
        writeByteSlice (Some (mkElement (Some v))) key start_ size b
          = Returns (mkWritten buf b 0 (Some err)))
  /\ (forall v (doc : Document) (buf : list byte) (start_ size : Z) (b : list byte)
             (tag : byte),
        data v = Some buf -> d v = Some doc -> index buf (start v) = Returns tag ->
        tag = Byte.x03 \/ tag = Byte.x04 ->
        needed v true start_ size <= len b ->
        0 <= start v < 2 ^ 32 -> start v <= offset v -> offset v <= len buf ->
        0 <= start_ -> start_ + (offset v - start v) <= len b -> len b < 2 ^ 63 ->
        writeByteSlice (Some (mkElement (Some v))) true start_ size b
          = ('(b', nn, err) <-
               (if Byte.eqb tag Byte.x03 then doc_writeByteSlice else arr_writeByteSlice)
                 doc (start_ + (offset v - start v))
                 (uint32 (size - uint32 (offset v - start v)))
                 (overwrite b start_ (sub buf (start v) (offset v))) ;;
             Returns (mkWritten buf b' (int64 (int (offset v - start v + int nn))) err)))
  /\ (forall v (doc : Document) (buf : list byte) (key : bool)
             (start_ size scopeSize : Z) (b : list byte),
        data v = Some buf -> d v = Some doc -> index buf (start v) = Returns Byte.x0f ->
        needed v key start_ size <= len b ->
        0 <= start v < 2 ^ 32 -> 0 <= offset v < 2 ^ 32 ->
        offset v + 8 <= len buf -> offset v + 8 < 2 ^ 32 ->
        doc_Validate doc = Returns (scopeSize, None) ->
        write_from v key <= code_end v buf -> code_end v buf <= len buf ->
        0 <= start_ -> start_ + (code_end v buf - write_from v key) <= len b ->
        len b < 2 ^ 63 ->
        let patched :=
          put_i32 buf (offset v) (int32 (4 + 4 + code_length v buf + scopeSize)) in
        writeByteSlice (Some (mkElement (Some v))) key start_ size b
          = ('(b', nn, err) <-
               doc_writeByteSlice doc (start_ + (code_end v buf - write_from v key))
                 scopeSize
                 (overwrite b start_ (sub patched (write_from v key) (code_end v buf))) ;;
             Returns (mkWritten patched b'
                        (int64 (int (code_end v buf - write_from v key + int nn))) err)))
  /\ (forall e (start_ : Z) (w : target) (n : Z) (err : error),
        Validate e = Returns (n, Some err) ->
        WriteElement e start_ w = Returns (e, w, 0, Some err)).
Proof.
  split.
  { intros e start_ size b r err Hv Hw Hf.
    unfold WriteElement, writeElement. rewrite Hv. cbn [bind].
    rewrite Hw. cbn [bind]. rewrite Hf. reflexivity. }
  split.
  { intros e size r err Hv Hw Hf.
    unfold MarshalBSON. rewrite Hv. cbn [bind].
    rewrite Hw. cbn [bind]. rewrite Hf. reflexivity. }
  split.
  { intros v doc buf key start_ size n b err Hdata Hd Hi Hn Ho Hcode H32 Hval.
    rewrite (writeByteSlice_passes v key start_ size b Hn).
    rewrite Hdata. cbn [bytes].
    rewrite (write_switch_code_with_scope v buf key _ start_ size b Hi).
    apply (write_code_with_scope_invalid_scope v doc buf key _ start_ size n b err);
      assumption. }
  split.
  { intros v doc buf start_ size b tag Hdata Hd Hi Ht Hn Hs Hso Ho Hstart Hfit Hlen.
    rewrite (writeByteSlice_passes v true start_ size b Hn).
    rewrite Hdata. cbn [bytes]. rewrite (uint_small (start v)) by lia.
    destruct Ht as [-> | ->].
    - rewrite (write_switch_document v doc buf true _ start_ size b Hd Hi).
      apply write_container_with_key; lia.
    - rewrite (write_switch_array v doc buf true _ start_ size b Hd Hi).
      apply write_container_with_key; lia. }
  split.
  { intros v doc buf key start_ size scopeSize b Hdata Hd Hi Hn Hs Ho Hcode H32 Hval
           Hfrom Hend Hstart Hfit Hlen patched.
    rewrite (writeByteSlice_passes v key start_ size b Hn).
    rewrite Hdata. cbn [bytes]. rewrite (write_from_uint v key Hs Ho).
    rewrite (write_switch_code_with_scope v buf key _ start_ size b Hi).
    apply write_code_with_scope_override; lia || assumption. }
  intros e start_ w n err Hv. exact (writeElement_invalid e true start_ w n err Hv).
Qed.

Lemma Validate_size_range e (size : Z) :
  Validate e = Returns (size, None) -> 0 <= size < 2 ^ 32.
Proof.
  unfold Validate. destruct e as [[[v|]]|]; try discriminate. cbn [value].
  destruct (validateKey v) as [[n [x|]]|p]; cbn [bind]; try discriminate.
  destruct (value_validate v false) as [[m [x|]]|p]; cbn [bind]; try discriminate.
  intros H. inversion H. apply uint32_range.
Qed.


End Properties.

(** ** The code run on concrete elements *)

(** C4 at the key "xx" without terminator: the tag and the two bytes
    scanned are counted. *)
Lemma Validate_reports_partial_size_witness :
  Validate (pkg := Fixture.package) (Some (mkElement (Some Fixture.unterminated_value)))
    = Returns (3, Some InvalidKey).
Proof.
  exact (proj1 (proj2 (proj2 (proj2 (Validate_reports_partial_size (pkg := Fixture.package)))))
           Fixture.unterminated_value [Byte.x02; Byte.x78; Byte.x78]
           eq_refl ltac:(by_evaluation) ltac:(by_evaluation) eq_refl).
Defined.

(** C8: the element cut short (its key would be [data[1:8]] of three
    bytes) and the element without room for a terminator (its key would be
    [data[1:0]]) are malformed, but not among those that [KeyOK] takes for
    uninitialized: [KeyOK] panics on them instead of reporting not-found,
    and [Key] panics although [KeyOK] did not report not-found. *)
Lemma KeyOK_panics_on_truncated_element :
  ~ uninitialized Fixture.truncated_element
  /\ KeyOK Fixture.truncated_element = Panics SliceBoundsOutOfRange
  /\ KeyOK Fixture.truncated_element <> Returns ([], false)
  /\ Key Fixture.truncated_element = Panics SliceBoundsOutOfRange
  /\ Key Fixture.truncated_element <> Panics (Thrown UninitializedElement)
  /\ KeyOK Fixture.keyless_element = Panics SliceBoundsOutOfRange
  /\ Key Fixture.keyless_element = Panics SliceBoundsOutOfRange.
Proof.
  split.
  { simpl. intros [H | H]; discriminate H. }
  split; [reflexivity|].
  split; [discriminate|].
  split; [reflexivity|].
  split; [discriminate|].
  split; reflexivity.
Qed.

(** C8 at the string element and at the nil element. *)
Lemma KeyOK_not_found_iff_uninitialized_witness :
  KeyOK Fixture.string_element = Returns ([Byte.x78], true)
  /\ KeyOK (@None (Element Fixture.document)) = Returns ([], false).
Proof.
  split.
  - exact (proj1 (proj2 (proj2 (KeyOK_not_found_iff_uninitialized Fixture.string_element)))
             (mkElement (Some Fixture.string_value)) Fixture.string_value Fixture.string_x_hi
             eq_refl eq_refl ltac:(discriminate) eq_refl).
  - exact (proj1 (proj1 (KeyOK_not_found_iff_uninitialized (@None (Element Fixture.document)))) I).
Defined.

(** C9: [Equal] panics on two non-nil elements with nil values, and on
    one of them next to a well-formed element, where the specification
    has true for the first and false for the second. *)
Lemma Equal_panics_on_nil_value :
  Equal (pkg := Fixture.package) Fixture.hollow_element Fixture.hollow_element
    = Panics (Thrown UninitializedElement)
  /\ Equal (pkg := Fixture.package) Fixture.hollow_element Fixture.string_element
       = Panics (Thrown UninitializedElement)
  /\ Equal (pkg := Fixture.package) Fixture.string_element Fixture.hollow_element
       = Panics (Thrown UninitializedElement).
Proof. repeat split. Qed.

(** C9 at the string element compared with itself, and at the element
    cut short compared with the element with a nil value: the key of the
    first is read first, and its slice expression panics. *)
Lemma Equal_compares_keys_then_values_witness :
  Equal (pkg := Fixture.package) Fixture.string_element Fixture.string_element
    = Returns true
  /\ Equal (pkg := Fixture.package) Fixture.truncated_element Fixture.hollow_element
     = Panics SliceBoundsOutOfRange.
Proof.
  split.
  - exact (proj1 (proj2 (proj2 (Equal_compares_keys_then_values (pkg := Fixture.package))))
             (mkElement (Some Fixture.string_value)) (mkElement (Some Fixture.string_value))
             Fixture.string_value Fixture.string_value [Byte.x78] [Byte.x78]
             eq_refl eq_refl eq_refl eq_refl).
  - exact (proj2 (proj1 (proj2 (proj2 (proj2 (proj2 (proj2 (proj2
             (Equal_compares_keys_then_values (pkg := Fixture.package))))))))
             (mkElement (Some (mkValue 0 9 (Some [Byte.x02; Byte.x78; Byte.x00]) None)))
             (mkElement None) SliceBoundsOutOfRange eq_refl)).
Defined.

(** C3 on the string element: five bytes are too few for ten, and nothing
    is written. *)
Lemma writeByteSlice_checks_capacity_witness :
  writeByteSlice (pkg := Fixture.package) Fixture.string_element true 0 10 (make 5)
    = Returns (mkWritten Fixture.string_x_hi (make 5) 0 (Some ErrTooSmall)).
Proof.
  exact (proj1 (writeByteSlice_checks_capacity (pkg := Fixture.package)
                  Fixture.string_value true 0 10 (make 5))
           ltac:(by_evaluation)).
Defined.

(** C2 on the string element: the ten bytes are copied as they are. *)
Lemma writeByteSlice_without_override_witness :
  writeByteSlice (pkg := Fixture.package) Fixture.string_element true 0 10 (make 10)
    = Returns (mkWritten Fixture.string_x_hi Fixture.string_x_hi 10 None).
Proof.
  exact (proj1 (writeByteSlice_without_override (pkg := Fixture.package)
                  Fixture.string_value Fixture.string_x_hi true 0 10 (make 10) Byte.x02
                  eq_refl eq_refl ltac:(by_evaluation) ltac:(by_evaluation) eq_refl
                  ltac:(by_evaluation) ltac:(by_evaluation) ltac:(by_evaluation)
                  ltac:(by_evaluation) ltac:(by_evaluation))
           ltac:(discriminate)).
Defined.

(** C2: the code-with-scope element with the stale outer length has no
    override and passes the capacity check, but what reaches the
    destination is not [buffer[0:17]] as the element held it: the length
    field reads 14 instead of 99, and the element's buffer has changed
    too. *)
Lemma writeByteSlice_raw_code_with_scope_not_verbatim :
  d Fixture.stale_value = None
  /\ needed Fixture.stale_value true 0 17 <= len (make 17)
  /\ writeByteSlice (pkg := Fixture.package) Fixture.stale_element true 0 17 (make 17)
       = Returns (mkWritten (Fixture.code_with_scope Byte.x0e)
                    (Fixture.code_with_scope Byte.x0e) 17 None)
  /\ Fixture.code_with_scope Byte.x0e
       <> overwrite (make 17) 0 (sub Fixture.stale 0 (uint32 (0 + 17)))
  /\ Fixture.code_with_scope Byte.x0e <> Fixture.stale.
Proof.
  split; [reflexivity|].
  split; [by_evaluation|].
  split; [reflexivity|].
  split; vm_compute; discriminate.
Qed.

(** C6 on the same element: 99 is replaced by 12 + 5 - 3 = 14 in the
    element's buffer, and the patched buffer is copied. *)
Lemma writeByteSlice_raw_code_with_scope_witness :
  writeByteSlice (pkg := Fixture.package) Fixture.stale_element true 0 17 (make 17)
    = Returns (mkWritten (Fixture.code_with_scope Byte.x0e)
                 (Fixture.code_with_scope Byte.x0e) 17 None).
Proof.
  exact (proj1 (proj2 (writeByteSlice_raw_code_with_scope (pkg := Fixture.package)
                  Fixture.stale_value Fixture.stale true 0 17 (make 17)
                  eq_refl eq_refl eq_refl ltac:(by_evaluation) ltac:(by_evaluation)
                  ltac:(by_evaluation) ltac:(by_evaluation) ltac:(by_evaluation)
                  ltac:(by_evaluation) ltac:(by_evaluation) ltac:(by_evaluation)
                  ltac:(by_evaluation) ltac:(by_evaluation) ltac:(by_evaluation)))).
Defined.

(** C1 on the element with the materialized empty scope: the outer length
    becomes 4 + 4 + 1 + 5 = 14 in the element's buffer and in the output,
    whose first twelve bytes are the framing. *)
Lemma writeByteSlice_code_with_scope_override_witness :
  exists r : written,
    writeByteSlice (pkg := Fixture.package)
      (Some (mkElement (Some Fixture.edited_value))) true 0 17 (make 17) = Returns r
    /\ src_after r = Fixture.code_with_scope Byte.x0e
    /\ dst_after r = Fixture.code_with_scope Byte.x0e
    /\ failure r = None
    /\ sub (dst_after r) 0 12 = firstn 12 (Fixture.code_with_scope Byte.x0e)
    /\ readi32 (sub (dst_after r) 3 7) = Returns 14.
Proof.
  exact (proj2 (proj2 (proj2 (proj2 (proj2 (proj2 (proj2
           (writeByteSlice_code_with_scope_override (pkg := Fixture.package)
              Fixture.edited_value (Fixture.Raw Fixture.scope) Fixture.stale
              true 0 17 5 (make 17)
              eq_refl eq_refl eq_refl ltac:(by_evaluation) ltac:(by_evaluation)
              ltac:(by_evaluation) ltac:(by_evaluation) ltac:(by_evaluation)
              eq_refl ltac:(by_evaluation) ltac:(by_evaluation) ltac:(by_evaluation)
              ltac:(by_evaluation) ltac:(by_evaluation) ltac:(by_evaluation))))))))
           (Fixture.code_with_scope Byte.x0e) 5 None eq_refl eq_refl).
Defined.

(** C7: the override's write fails with its own error, which
    [writeByteSlice] and [MarshalBSON] return as it is, and [WriteElement]
    returns the too-small error in its place. *)
Lemma WriteElement_replaces_nested_error :
  Validate (pkg := Fixture.package) Fixture.failing_element = Returns (8, None)
  /\ (exists r : written,
        writeByteSlice (pkg := Fixture.package) Fixture.failing_element true 0 8 (make 8)
          = Returns r
        /\ failure r = Some (Structural 7))
  /\ (exists b : list byte,
        WriteElement (pkg := Fixture.package) Fixture.failing_element 0 (ByteSlice (make 8))
          = Returns (Fixture.failing_element, ByteSlice b, 0, Some ErrTooSmall))
  /\ ErrTooSmall <> Structural 7.
Proof.
  split; [reflexivity|].
  split; [eexists; split; reflexivity|].
  split; [eexists; reflexivity|].
  discriminate.
Qed.

(** C7 on the same element, through the theorem. *)
Lemma WriteElement_reports_write_errors_as_too_small_witness :
  WriteElement (pkg := Fixture.package) Fixture.failing_element 0 (ByteSlice (make 8))
    = Returns (Fixture.failing_element,
               ByteSlice (overwrite (make 8) 0 (firstn 3 Fixture.embedded)),
               0, Some ErrTooSmall)
  /\ MarshalBSON (pkg := Fixture.package) Fixture.failing_element
       = Returns (Fixture.failing_element, None, Some (Structural 7)).
Proof.
  split.
  - exact (proj1 (WriteElement_reports_write_errors_as_too_small (pkg := Fixture.package))
             Fixture.failing_element 0 8 (make 8)
             (mkWritten Fixture.embedded (overwrite (make 8) 0 (firstn 3 Fixture.embedded))
                3 (Some (Structural 7)))
             (Structural 7) eq_refl eq_refl eq_refl).
  - exact (proj1 (proj2 (WriteElement_reports_write_errors_as_too_small
                           (pkg := Fixture.package)))
             Fixture.failing_element 8
             (mkWritten Fixture.embedded (overwrite (make 8) 0 (firstn 3 Fixture.embedded))
                3 (Some (Structural 7)))
             (Structural 7) eq_refl eq_refl eq_refl).
Defined.


(** ** More about the key scan and the key *)

(** The bytes counted by [key_bytes] are not null, and the byte after them,
    if there is one, is. *)
Lemma key_bytes_prefix (l : list byte) :
  Forall nonnull (firstn (Z.to_nat (key_bytes l)) l).
Proof.
  induction l as [|c t IH]; cbn [key_bytes].
  - simpl. constructor.
  - destruct (Byte.eqb c Byte.x00) eqn:E.
    + simpl. constructor.
    + pose proof (key_bytes_range t) as Hr.
      replace (Z.to_nat (1 + key_bytes t)) with (S (Z.to_nat (key_bytes t))) by lia.
      cbn [firstn]. constructor.
      * apply Byte.eqb_false. exact E.
      * exact IH.
Qed.

Lemma key_bytes_stop (l : list byte) :
  key_bytes l < len l -> nth_error l (Z.to_nat (key_bytes l)) = Some Byte.x00.
Proof.
  unfold len. induction l as [|c t IH]; cbn [key_bytes length].
  - lia.
  - destruct (Byte.eqb c Byte.x00) eqn:E.
    + intros _. apply Byte.byte_dec_bl in E. subst c. reflexivity.
    + intros H. pose proof (key_bytes_range t) as Hr.
      replace (Z.to_nat (1 + key_bytes t)) with (S (Z.to_nat (key_bytes t))) by lia.
      cbn [nth_error]. apply IH. lia.
Qed.

Lemma key_bytes_all (l : list byte) : key_bytes l = len l <-> Forall nonnull l.
Proof.
  split.
  - intros H. pose proof (key_bytes_prefix l) as Hp.
    rewrite H in Hp. unfold len in Hp. rewrite Nat2Z.id, firstn_all in Hp. exact Hp.
  - unfold len. induction 1 as [|c t Hc _ IH]; cbn [key_bytes length].
    + reflexivity.
    + destruct (Byte.eqb c Byte.x00) eqn:E.
      * apply Byte.byte_dec_bl in E. contradiction.
      * lia.
Qed.

(** A null byte in a list stops the count at or before it. *)
Lemma key_bytes_app_null (k t : list byte) :
  Forall nonnull k -> key_bytes (k ++ Byte.x00 :: t) = len k.
Proof.
  unfold len. induction 1 as [|c k' Hc _ IH]; cbn [app key_bytes length].
  - reflexivity.
  - destruct (Byte.eqb c Byte.x00) eqn:E.
    + apply Byte.byte_dec_bl in E. contradiction.
    + rewrite IH. lia.
Qed.

Lemma nth_error_sub (s : list byte) (lo hi : Z) (i : nat) :
  0 <= lo -> Z.of_nat i < hi - lo ->
  nth_error (sub s lo hi) i = nth_error s (Z.to_nat lo + i).
Proof.
  intros Hlo Hi. unfold sub.
  rewrite nth_error_firstn.
  replace (i <? Z.to_nat (hi - lo))%nat with true by (symmetry; apply Nat.ltb_lt; lia).
  apply nth_error_skipn.
Qed.

Lemma firstn_sub (s : list byte) (lo hi : Z) (n : Z) :
  0 <= n <= hi - lo -> firstn (Z.to_nat n) (sub s lo hi) = sub s lo (lo + n).
Proof.
  intros H. unfold sub. rewrite firstn_firstn.
  f_equal. lia.
Qed.

Lemma index_nth_error (s : list byte) (i : Z) (c : byte) :
  0 <= i -> nth_error s (Z.to_nat i) = Some c -> index s i = Returns c.
Proof.
  intros Hi H. unfold index.
  assert (Z.to_nat i < length s)%nat by (apply nth_error_Some; congruence).
  replace (0 <=? i) with true by (symmetry; apply Z.leb_le; lia).
  replace (i <? len s) with true by (symmetry; apply Z.ltb_lt; unfold len; lia).
  simpl. rewrite H. reflexivity.
Qed.

(** The key that [validateKey] accepts ends at the first null byte. *)
Lemma validateKey_accepts {Document : Type} (v : Value Document)
  (buf : list byte) (n : Z) :
  data v = Some buf -> 0 <= start v -> start v + 1 <= clamped_end v buf ->
  validateKey v = Returns (n, None) ->
  1 <= n /\ start v + n < clamped_end v buf
  /\ index buf (start v + n) = Returns Byte.x00
  /\ Forall nonnull (sub buf (start v + 1) (start v + n)).
Proof.
  intros Hd Hs Hle H.
  pose proof (validateKey_scans v buf Hd Hs Hle) as Hscan. cbv zeta in Hscan.
  destruct (clamped_end_range v buf) as [Hlen H32].
  set (region := sub buf (start v + 1) (clamped_end v buf)) in *.
  assert (Hlr : len region = clamped_end v buf - (start v + 1))
    by (apply len_sub; lia).
  pose proof (key_bytes_range region) as Hk.
  rewrite Hscan in H.
  destruct (start v + 1 + key_bytes region =? clamped_end v buf) eqn:E;
    [discriminate H|].
  apply Z.eqb_neq in E. inversion H; subst n.
  split; [lia|]. split; [lia|]. split.
  - apply index_nth_error; [lia|].
    pose proof (key_bytes_stop region ltac:(lia)) as Hstop.
    assert (Hnth : nth_error region (Z.to_nat (key_bytes region))
                   = nth_error buf (Z.to_nat (start v + 1) + Z.to_nat (key_bytes region)))
      by (unfold region at 1; apply nth_error_sub; lia).
    rewrite <- Hstop, Hnth. f_equal. lia.
  - pose proof (key_bytes_prefix region) as Hp.
    assert (Hf : firstn (Z.to_nat (key_bytes region)) region
                 = sub buf (start v + 1) (start v + 1 + key_bytes region))
      by (unfold region at 2; apply firstn_sub; lia).
    rewrite Hf in Hp.
    replace (start v + (key_bytes region + 1)) with (start v + 1 + key_bytes region) by lia.
    exact Hp.
Qed.

(** X1.  On a key region that is not inverted [validateKey] always
    returns.  When it accepts the key with size [n], the byte at
    [start + n] is the first null byte of the region and lies before its
    clamped end; when it rejects it, the error is [InvalidKey], [n] is the
    length of the whole region and the region has no null byte. *)
Theorem validateKey_finds_first_null {Document : Type} (v : Value Document)
  (buf : list byte) :
  data v = Some buf -> 0 <= start v -> start v + 1 <= clamped_end v buf ->
  (exists (n : Z) (err : option error), validateKey v = Returns (n, err))
  /\ (forall n : Z, validateKey v = Returns (n, None) ->
        1 <= n /\ start v + n < clamped_end v buf
        /\ index buf (start v + n) = Returns Byte.x00
        /\ Forall nonnull (sub buf (start v + 1) (start v + n)))
  /\ (forall (n : Z) (err : error), validateKey v = Returns (n, Some err) ->
        err = InvalidKey /\ n = clamped_end v buf - (start v + 1)
        /\ Forall nonnull (sub buf (start v + 1) (clamped_end v buf))).
Proof.
  intros Hd Hs Hle.
  pose proof (validateKey_scans v buf Hd Hs Hle) as Hscan. cbv zeta in Hscan.
  destruct (clamped_end_range v buf) as [Hlen H32].
  split.
  { destruct (start v + 1 + key_bytes (sub buf (start v + 1) (clamped_end v buf))
              =? clamped_end v buf); eexists; eexists; exact Hscan. }
  split; [intros n; apply validateKey_accepts; assumption|].
  intros n err H. rewrite Hscan in H.
  destruct (start v + 1 + key_bytes (sub buf (start v + 1) (clamped_end v buf))
            =? clamped_end v buf) eqn:E; [|discriminate H].
  apply Z.eqb_eq in E. inversion H; subst.
  split; [reflexivity|]. split; [lia|].
  apply key_bytes_all. rewrite len_sub by lia. lia.
Qed.

Lemma clamped_end_offset {Document : Type} (v : Value Document) (buf : list byte) :
  offset v <= len buf -> len buf < 2 ^ 32 -> clamped_end v buf = offset v.
Proof.
  intros Ho H32. unfold clamped_end.
  rewrite uint32_small by (pose proof (len_nonneg buf); lia).
  replace (len buf <? offset v) with false by (symmetry; apply Z.ltb_ge; lia).
  reflexivity.
Qed.

(** X2.  For an element whose key validates with size [n] and whose
    offsets lie in its buffer, [KeyOK] finds the key
    [data[start+1 : offset-1]], whatever [n] is.  That key is free of null
    bytes exactly when the terminator found by the validation is the byte
    just before the payload ([n = offset - start - 1]); when the terminator
    comes earlier, the key returned contains it. *)
Theorem KeyOK_of_validated_key {Document : Type} (v : Value Document)
  (buf : list byte) (n : Z) :
  data v = Some buf -> 0 <= start v -> start v + 2 <= offset v ->
  offset v <= len buf -> len buf < 2 ^ 32 ->
  validateKey v = Returns (n, None) ->
  KeyOK (Some (mkElement (Some v)))
    = Returns (sub buf (start v + 1) (offset v - 1), true)
  /\ 1 <= n <= offset v - start v - 1
  /\ (Forall nonnull (sub buf (start v + 1) (offset v - 1))
        <-> n = offset v - start v - 1).
Proof.
  intros Hd Hs Hso Ho H32 Hv.
  pose proof (clamped_end_offset v buf Ho H32) as Hce.
  destruct (validateKey_accepts v buf n Hd Hs ltac:(lia) Hv) as [Hn1 [Hn2 [Hi Hnn]]].
  rewrite Hce in Hn2.
  split.
  { rewrite (KeyOK_initialized (Some (mkElement (Some v))) (mkElement (Some v)) v buf
               eq_refl eq_refl ltac:(lia) Hd).
    rewrite (uint32_small (start v + 1)), (uint32_small (offset v - 1)) by lia.
    rewrite slice_in_range by lia. reflexivity. }
  split; [lia|].
  split.
  - intros Hall.
    destruct (Z.eq_dec n (offset v - start v - 1)) as [E|N]; [exact E|exfalso].
    assert (Hin : nth_error (sub buf (start v + 1) (offset v - 1)) (Z.to_nat (n - 1))
                  = Some Byte.x00).
    { rewrite nth_error_sub by lia.
      unfold index in Hi.
      destruct ((0 <=? start v + n) && (start v + n <? len buf)); [|discriminate].
      replace (Z.to_nat (start v + 1) + Z.to_nat (n - 1))%nat
        with (Z.to_nat (start v + n)) by lia.
      destruct (nth_error buf (Z.to_nat (start v + n))) as [c|]; [|discriminate].
      inversion Hi. reflexivity. }
    apply nth_error_In in Hin.
    rewrite Forall_forall in Hall. exact (Hall _ Hin eq_refl).
  - intros E. subst n.
    replace (offset v - 1) with (start v + (offset v - start v - 1)) by lia.
    exact Hnn.
Qed.

(** ** More about serialization *)

Lemma len_overwrite (b : list byte) (at_ : Z) (src : list byte) :
  0 <= at_ <= len b -> len (overwrite b at_ src) = len b.
Proof.
  intros H. unfold overwrite.
  pose proof (copied_range b at_ src H) as Hc.
  assert (copied b at_ src <= len b - at_) by (unfold copied; lia).
  rewrite !len_app, !len_firstn, len_skipn by lia. lia.
Qed.

Lemma firstn_overwrite (b : list byte) (at_ : Z) (src : list byte) :
  0 <= at_ <= len b ->
  firstn (Z.to_nat at_) (overwrite b at_ src) = firstn (Z.to_nat at_) b.
Proof.
  intros H. unfold overwrite.
  rewrite firstn_app, firstn_firstn, Nat.min_id, length_firstn.
  replace (Z.to_nat at_ - Nat.min (Z.to_nat at_) (length b))%nat with 0%nat
    by (unfold len in H; lia).
  simpl. rewrite app_nil_r. reflexivity.
Qed.

Lemma skipn_overwrite (b : list byte) (at_ : Z) (src : list byte) :
  0 <= at_ <= len b ->
  skipn (Z.to_nat (at_ + copied b at_ src)) (overwrite b at_ src)
    = skipn (Z.to_nat (at_ + copied b at_ src)) b.
Proof.
  intros H. unfold overwrite.
  pose proof (copied_range b at_ src H) as Hc.
  set (n := copied b at_ src) in *.
  rewrite app_assoc.
  assert (Hl : length (firstn (Z.to_nat at_) b ++ firstn (Z.to_nat n) src)
               = Z.to_nat (at_ + n)).
  { rewrite length_app, !length_firstn. unfold len in *. lia. }
  rewrite skipn_app, Hl, Nat.sub_diag, skipn_all2 by lia.
  rewrite skipn_skipn. reflexivity.
Qed.

(** The plain copy touches the destination only where it copies. *)
Lemma copy_verbatim_frame {Document : Type} (v : Value Document) (buf : list byte)
  (from start_ size : Z) (b : list byte) (r : written) :
  len b < 2 ^ 63 ->
  copy_verbatim v buf from start_ size b = Returns r ->
  untouched_outside b start_ r /\ src_after r = buf /\ failure r = None.
Proof.
  intros Hlen. unfold copy_verbatim.
  destruct (slice buf from (uint32 (start v + size))) as [src|p]; [|discriminate].
  cbn [bind]. unfold copy.
  destruct ((0 <=? start_) && (start_ <=? len b)) eqn:E; [|discriminate].
  apply andb_true_iff in E. destruct E as [E1 E2].
  apply Z.leb_le in E1. apply Z.leb_le in E2.
  cbn [bind]. intros H. inversion H; subst r; clear H.
  pose proof (copied_range b start_ src ltac:(lia)) as Hc.
  assert (copied b start_ src <= len b - start_) by (unfold copied; lia).
  unfold untouched_outside. cbn [dst_after count src_after failure].
  rewrite int64_small by lia.
  repeat split.
  - apply len_overwrite. lia.
  - lia.
  - apply firstn_overwrite. lia.
  - apply skipn_overwrite. lia.
Qed.

Lemma untouched_nothing (buf b : list byte) (start_ : Z) (err : option error) :
  untouched_outside b start_ (mkWritten buf b 0 err).
Proof.
  unfold untouched_outside. cbn [dst_after count]. repeat split. lia.
Qed.

Section MoreProperties.

Context {Document Writer : Type} {pkg : Package Document Writer}.

Implicit Types (e : option (Element Document)) (v : Value Document).

(** Without override the switch ends in the plain copy, or in the raw
    code-with-scope path. *)
Lemma write_switch_raw v (buf : list byte) (key : bool) (from start_ size : Z)
  (b : list byte) (r : written) :
  d v = None ->
  write_switch v buf key from start_ size b = Returns r ->
  copy_verbatim v buf from start_ size b = Returns r
  \/ write_code_with_scope v buf key from start_ size b = Returns r.
Proof.
  intros Hd. unfold write_switch.
  destruct (index buf (start v)) as [tag|p]; [|discriminate].
  cbn [bind]. rewrite Hd. destruct tag; intros H; (left; exact H) || (right; exact H).
Qed.

(** The raw code-with-scope path fails in the codec with nothing written,
    or copies a buffer of the same length with one field replaced. *)
Lemma write_code_with_scope_raw_cases v (buf : list byte) (key : bool)
  (from start_ size : Z) (b : list byte) (r : written) :
  d v = None ->
  write_code_with_scope v buf key from start_ size b = Returns r ->
  r = mkWritten buf b 0 (Some CodecTooSmall)
  \/ exists i : Z,
       uint (offset v) + 4 <= len buf
       /\ copy_verbatim v (put_i32 buf (uint (offset v)) i) from start_ size b = Returns r.
Proof.
  intros Hd. unfold write_code_with_scope.
  destruct (slice buf _ _) as [sl|p]; [|discriminate]. cbn [bind].
  destruct (readi32 sl) as [codeLength|p]; [|discriminate]. cbn [bind].
  rewrite Hd.
  destruct (slice buf _ _) as [sl2|p]; [|discriminate]. cbn [bind].
  destruct (readi32 sl2) as [scopeLength|p]; [|discriminate]. cbn [bind].
  unfold Int32_Encode.
  destruct (len buf <? uint (offset v) + 4) eqn:E.
  - intros H. inversion H. left. reflexivity.
  - apply Z.ltb_ge in E. intros H. right. eexists. split; [exact E | exact H].
Qed.

(** A write without override writes nothing, or ends in the plain copy of
    a buffer as long as the element's. *)
Lemma writeByteSlice_raw_cases v (buf : list byte) (key : bool) (start_ size : Z)
  (b : list byte) (r : written) :
  data v = Some buf -> d v = None ->
  writeByteSlice (Some (mkElement (Some v))) key start_ size b = Returns r ->
  (exists err : error, r = mkWritten buf b 0 (Some err))
  \/ (exists (buf' : list byte) (from : Z),
        len buf' = len buf /\ copy_verbatim v buf' from start_ size b = Returns r).
Proof.
  intros Hdata Hd. unfold writeByteSlice. cbn [deref bind value].
  rewrite Hdata. cbn [bytes].
  destruct (len b <? needed v key start_ size).
  { intros H. inversion H. left. eexists. reflexivity. }
  intros H. apply (write_switch_raw v buf key _ start_ size b r Hd) in H.
  destruct H as [H | H].
  - right. exists buf. eexists. split; [reflexivity | exact H].
  - apply (write_code_with_scope_raw_cases v buf key _ start_ size b r Hd) in H.
    destruct H as [-> | [i [Hfit H]]].
    + left. eexists. reflexivity.
    + right. eexists. eexists. split; [|exact H].
      apply len_put_i32; [|exact Hfit].
      unfold uint. apply Z.mod_pos_bound. lia.
Qed.

(** X3.  Writing an element without override never touches the
    destination outside of the bytes it reports: the destination keeps its
    length, the bytes before [destStart] and the bytes from
    [destStart + count] on; the element's own buffer keeps its length.
    When an error is returned, nothing at all was written and the
    element's buffer is unchanged. *)
Theorem writeByteSlice_raw_frame v (buf : list byte) (key : bool) (start_ size : Z)
  (b : list byte) (r : written) :
  data v = Some buf -> d v = None -> len b < 2 ^ 63 ->
  writeByteSlice (Some (mkElement (Some v))) key start_ size b = Returns r ->
  untouched_outside b start_ r
  /\ len (src_after r) = len buf
  /\ (failure r <> None -> dst_after r = b /\ count r = 0 /\ src_after r = buf).
Proof.
  intros Hdata Hd Hlen Hw.
  destruct (writeByteSlice_raw_cases v buf key start_ size b r Hdata Hd Hw)
    as [[err ->] | [buf' [from [Hl Hc]]]].
  - split; [apply untouched_nothing|]. split; [reflexivity|].
    intros _. repeat split.
  - destruct (copy_verbatim_frame v buf' from start_ size b r Hlen Hc) as [Hu [Hs Hf]].
    split; [exact Hu|]. split.
    + rewrite Hs. exact Hl.
    + intros Hne. contradiction.
Qed.

Lemma overwrite_fits (b : list byte) (at_ : Z) (src : list byte) :
  0 <= at_ -> at_ + len src <= len b ->
  overwrite b at_ src
    = firstn (Z.to_nat at_) b ++ src ++ skipn (Z.to_nat (at_ + len src)) b.
Proof.
  intros Hat Hfit. unfold overwrite. rewrite copied_all by assumption.
  unfold len at 1. rewrite Nat2Z.id, firstn_all. reflexivity.
Qed.

(** A raw element written with its key into a destination with room for
    [size] bytes. *)
Lemma write_raw_with_key v (buf : list byte) (start_ size : Z) (b : list byte)
  (tag : byte) :
  data v = Some buf -> d v = None ->
  index buf (start v) = Returns tag -> tag <> Byte.x0f ->
  0 <= start v -> 0 <= size -> start v + size <= len buf -> len buf < 2 ^ 32 ->
  0 <= start_ -> start_ + size <= len b -> len b < 2 ^ 63 ->
  writeByteSlice (Some (mkElement (Some v))) true start_ size b
    = Returns (mkWritten buf
                 (firstn (Z.to_nat start_) b ++ sub buf (start v) (start v + size)
                    ++ skipn (Z.to_nat (start_ + size)) b)
                 size None).
Proof.
  intros Hdata Hd Hi Ht Hs Hsize Hhi H32 Hstart Hfit Hlen.
  assert (Hn : needed v true start_ size <= len b).
  { unfold needed. rewrite (uint_small size), (uint_small (start_ + size)) by lia. lia. }
  rewrite (writeByteSlice_passes v true start_ size b Hn).
  rewrite Hdata. cbn [bytes].
  rewrite (write_switch_verbatim v buf true _ start_ size b tag Hd Hi Ht).
  rewrite (uint_small (start v)) by lia.
  rewrite copy_verbatim_in_range; rewrite ?(uint32_small (start v + size)) by lia; try lia.
  assert (Hl : len (sub buf (start v) (start v + size)) = size)
    by (rewrite len_sub by lia; lia).
  rewrite overwrite_fits, copied_all by lia.
  rewrite Hl. reflexivity.
Qed.

(** The same without its key, into a destination with room for one byte
    more than the payload. *)
Lemma write_raw_without_key v (buf : list byte) (start_ size : Z) (b : list byte)
  (tag : byte) :
  data v = Some buf -> d v = None ->
  index buf (start v) = Returns tag -> tag <> Byte.x0f ->
  0 <= start v -> start v < offset v -> offset v <= start v + size ->
  start v + size <= len buf -> len buf < 2 ^ 32 ->
  0 <= start_ -> start_ + (start v + size - offset v) + 1 <= len b -> len b < 2 ^ 63 ->
  writeByteSlice (Some (mkElement (Some v))) false start_ size b
    = Returns (mkWritten buf
                 (firstn (Z.to_nat start_) b ++ sub buf (offset v) (start v + size)
                    ++ skipn (Z.to_nat (start_ + (start v + size - offset v))) b)
                 (start v + size - offset v) None).
Proof.
  intros Hdata Hd Hi Ht Hs Hso Hos Hhi H32 Hstart Hfit Hlen.
  destruct (needed_exact v start_ size) as [_ Hnf]; try lia.
  assert (Hn : needed v false start_ size <= len b) by lia.
  rewrite (writeByteSlice_passes v false start_ size b Hn).
  rewrite Hdata. cbn [bytes].
  rewrite (write_switch_verbatim v buf false _ start_ size b tag Hd Hi Ht).
  rewrite (uint_small (offset v)) by lia.
  rewrite copy_verbatim_in_range; rewrite ?(uint32_small (start v + size)) by lia; try lia.
  assert (Hl : len (sub buf (offset v) (start v + size)) = start v + size - offset v)
    by (rewrite len_sub by lia; lia).
  rewrite overwrite_fits, copied_all by lia.
  rewrite Hl. reflexivity.
Qed.

(** X4.  How much room the capacity check wants, for an element without
    override, with a tag other than 0x0F and with its offsets in range.
    With the key, a destination with exactly [size] bytes from [destStart]
    on is enough and all [size] bytes are written.  Without the key only
    the [start + size - offset] bytes of the payload are written, but the
    check wants one byte more: a destination that the payload fits exactly
    is refused with the too-small error, and one byte more is accepted. *)
Theorem writeByteSlice_room v (buf : list byte) (start_ size : Z) (b : list byte)
  (tag : byte) :
  data v = Some buf -> d v = None ->
  index buf (start v) = Returns tag -> tag <> Byte.x0f ->
  0 <= start v -> start v < offset v -> offset v <= start v + size ->
  start v + size <= len buf -> len buf < 2 ^ 32 ->
  0 <= start_ -> len b < 2 ^ 63 ->
  let payload := start v + size - offset v in
  (len b = start_ + size ->
     writeByteSlice (Some (mkElement (Some v))) true start_ size b
       = Returns (mkWritten buf
                    (firstn (Z.to_nat start_) b ++ sub buf (start v) (start v + size))
                    size None))
  /\ (len b = start_ + payload ->
        writeByteSlice (Some (mkElement (Some v))) false start_ size b
          = Returns (mkWritten buf b 0 (Some ErrTooSmall)))
  /\ (len b = start_ + payload + 1 ->
        exists last : byte,
          b = firstn (Z.to_nat (start_ + payload)) b ++ [last]
          /\ writeByteSlice (Some (mkElement (Some v))) false start_ size b
             = Returns (mkWritten buf
                          (firstn (Z.to_nat start_) b
                             ++ sub buf (offset v) (start v + size) ++ [last])
                          payload None)).
Proof.
  intros Hdata Hd Hi Ht Hs Hso Hos Hhi H32 Hstart Hlen payload.
  split.
  { intros Hb.
    rewrite (write_raw_with_key v buf start_ size b tag) by (assumption || lia).
    rewrite skipn_all2 by (unfold len in Hb; lia).
    rewrite app_nil_r. reflexivity. }
  split.
  { intros Hb.
    destruct (needed_exact v start_ size) as [_ Hnf]; try lia.
    rewrite (writeByteSlice_too_small v false start_ size b) by lia.
    rewrite Hdata. reflexivity. }
  intros Hb.
  assert (Hsk : exists last, skipn (Z.to_nat (start_ + payload)) b = [last]).
  { assert (Hl : length (skipn (Z.to_nat (start_ + payload)) b) = 1%nat)
      by (rewrite length_skipn; unfold len in Hb; lia).
    destruct (skipn (Z.to_nat (start_ + payload)) b) as [|c [|c' t]]; try discriminate.
    exists c. reflexivity. }
  destruct Hsk as [last Hsk]. exists last. split.
  - rewrite <- Hsk. symmetry. apply firstn_skipn.
  - rewrite (write_raw_without_key v buf start_ size b tag) by (assumption || lia).
    fold payload. rewrite Hsk. reflexivity.
Qed.

(** X5.  Two elements without override (tags other than 0x0F) written
    back to back with their keys, the second at the offset advanced by the
    count of the first: the counts are the two sizes, and the destination
    ends up with the bytes of the first element followed by the bytes of
    the second, between what was before [destStart] and what was after
    both. *)
Theorem writeByteSlice_back_to_back v (buf : list byte) (size : Z) (tag : byte)
  (v' : Value Document) (buf' : list byte) (size' : Z) (tag' : byte)
  (start_ : Z) (b : list byte) :
  data v = Some buf -> d v = None ->
  index buf (start v) = Returns tag -> tag <> Byte.x0f ->
  0 <= start v -> 0 <= size -> start v + size <= len buf -> len buf < 2 ^ 32 ->
  data v' = Some buf' -> d v' = None ->
  index buf' (start v') = Returns tag' -> tag' <> Byte.x0f ->
  0 <= start v' -> 0 <= size' -> start v' + size' <= len buf' -> len buf' < 2 ^ 32 ->
  0 <= start_ -> start_ + size + size' <= len b -> len b < 2 ^ 63 ->
  exists r r' : written,
    writeByteSlice (Some (mkElement (Some v))) true start_ size b = Returns r
    /\ count r = size
    /\ writeByteSlice (Some (mkElement (Some v'))) true (start_ + count r) size'
         (dst_after r) = Returns r'
    /\ count r' = size'
    /\ dst_after r'
       = firstn (Z.to_nat start_) b
           ++ sub buf (start v) (start v + size)
           ++ sub buf' (start v') (start v' + size')
           ++ skipn (Z.to_nat (start_ + size + size')) b.
Proof.
  intros Hdata Hd Hi Ht Hs Hsize Hhi H32 Hdata' Hd' Hi' Ht' Hs' Hsize' Hhi' H32'
         Hstart Hfit Hlen.
  set (one := sub buf (start v) (start v + size)).
  set (two := sub buf' (start v') (start v' + size')).
  assert (Hl1 : length one = Z.to_nat size).
  { pose proof (len_sub buf (start v) (start v + size) ltac:(lia) Hhi) as H.
    fold one in H. unfold len in H at 1. lia. }
  assert (Hlb : (Z.to_nat (start_ + size + size') <= length b)%nat)
    by (unfold len in Hfit; lia).
  set (mid := firstn (Z.to_nat start_) b ++ one ++ skipn (Z.to_nat (start_ + size)) b).
  assert (Hlf : length (firstn (Z.to_nat start_) b) = Z.to_nat start_)
    by (rewrite length_firstn; lia).
  assert (Hlm : len mid = len b).
  { unfold mid, len. rewrite !length_app, Hlf, Hl1, length_skipn. lia. }
  exists (mkWritten buf mid size None).
  exists (mkWritten buf'
            (firstn (Z.to_nat (start_ + size)) mid ++ two
               ++ skipn (Z.to_nat (start_ + size + size')) mid)
            size' None).
  cbn [count dst_after].
  split; [apply (write_raw_with_key v buf start_ size b tag); assumption || lia|].
  split; [reflexivity|].
  split; [apply (write_raw_with_key v' buf' (start_ + size) size' mid tag');
          assumption || lia|].
  split; [reflexivity|].
  assert (Hf : firstn (Z.to_nat (start_ + size)) mid = firstn (Z.to_nat start_) b ++ one).
  { unfold mid. rewrite app_assoc.
    rewrite firstn_app.
    replace (Z.to_nat (start_ + size) - length (firstn (Z.to_nat start_) b ++ one))%nat
      with 0%nat by (rewrite length_app, Hlf, Hl1; lia).
    rewrite firstn_all2 by (rewrite length_app, Hlf, Hl1; lia).
    simpl. apply app_nil_r. }
  assert (Hk : skipn (Z.to_nat (start_ + size + size')) mid
               = skipn (Z.to_nat (start_ + size + size')) b).
  { unfold mid. rewrite app_assoc.
    rewrite skipn_app.
    rewrite skipn_all2 by (rewrite length_app, Hlf, Hl1; lia).
    rewrite length_app, Hlf, Hl1. simpl app.
    rewrite skipn_skipn. f_equal. lia. }
  rewrite Hf, Hk. rewrite <- app_assoc. reflexivity.
Qed.

Lemma firstn_put_i32 (buf : list byte) (at_ i : Z) :
  0 <= at_ -> at_ + 4 <= len buf ->
  firstn (Z.to_nat at_) (put_i32 buf at_ i) = firstn (Z.to_nat at_) buf.
Proof.
  intros H1 H2. unfold put_i32.
  rewrite firstn_app, firstn_firstn, Nat.min_id, length_firstn.
  replace (Z.to_nat at_ - Nat.min (Z.to_nat at_) (length buf))%nat with 0%nat
    by (unfold len in H2; lia).
  simpl. rewrite app_nil_r. reflexivity.
Qed.

(** Writing the same field twice keeps the second value only. *)
Lemma put_i32_twice (buf : list byte) (at_ i j : Z) :
  0 <= at_ -> at_ + 4 <= len buf ->
  put_i32 (put_i32 buf at_ i) at_ j = put_i32 buf at_ j.
Proof.
  intros H1 H2. unfold put_i32 at 1.
  rewrite firstn_put_i32, skipn_put_i32 by assumption. reflexivity.
Qed.

Lemma field_put_i32_after (buf : list byte) (at_ i c : Z) :
  0 <= at_ -> at_ + 4 <= c -> at_ + 4 <= len buf ->
  field_i32 (put_i32 buf at_ i) c = field_i32 buf c.
Proof.
  intros H1 H2 H3. unfold field_i32.
  rewrite sub_put_i32_after by lia. reflexivity.
Qed.

Lemma index_put_i32_before (buf : list byte) (at_ i k : Z) :
  0 <= k < at_ -> at_ + 4 <= len buf ->
  index (put_i32 buf at_ i) k = index buf k.
Proof.
  intros Hk Hlen. unfold index.
  rewrite len_put_i32 by lia.
  destruct ((0 <=? k) && (k <? len buf)); [|reflexivity].
  unfold put_i32.
  rewrite nth_error_app1 by (rewrite length_firstn; unfold len in Hlen; lia).
  rewrite nth_error_firstn.
  replace (Z.to_nat k <? Z.to_nat at_)%nat with true by (symmetry; apply Nat.ltb_lt; lia).
  reflexivity.
Qed.

Lemma le_split_int32 (i : Z) : le_split 4 (int32 i) = le_split 4 i.
Proof.
  rewrite (le_split_mod (int32 i)), (le_split_mod i).
  change (Z.of_nat 4 * 8) with 32. rewrite int32_mod. reflexivity.
Qed.

(** Writing back the value that a field holds changes nothing. *)
Lemma put_i32_field (buf : list byte) (at_ : Z) :
  0 <= at_ -> at_ + 4 <= len buf -> put_i32 buf at_ (field_i32 buf at_) = buf.
Proof.
  intros H1 H2. unfold put_i32, field_i32.
  rewrite le_split_int32.
  assert (Hl : length (sub buf at_ (at_ + 4)) = 4%nat).
  { pose proof (len_sub buf at_ (at_ + 4) ltac:(lia) H2) as H. unfold len in H at 1. lia. }
  rewrite (firstn_all2 (n := 4) (sub buf at_ (at_ + 4))) by lia.
  rewrite (split_le_combine' _ 4 Hl).
  unfold sub. replace (Z.to_nat (at_ + 4 - at_)) with 4%nat by lia.
  replace (Z.to_nat (at_ + 4)) with (4 + Z.to_nat at_)%nat by lia.
  rewrite <- skipn_skipn, firstn_skipn, firstn_skipn. reflexivity.
Qed.

Lemma int32_int32 (a : Z) : int32 (int32 a) = int32 a.
Proof. apply int32_congr. apply int32_mod. Qed.

(** X6.  Writing a code-with-scope element without override a second time
    changes nothing more: the buffer patched by the first write is left as
    it is by the second, and the destination and count are the same. *)
Theorem writeByteSlice_raw_code_with_scope_again v (buf : list byte) (key : bool)
  (start_ size : Z) (b : list byte) :
  data v = Some buf -> d v = None ->
  index buf (start v) = Returns Byte.x0f ->
  needed v key start_ size <= len b ->
  0 <= start v -> start v < offset v ->
  offset v + 8 <= len buf -> offset v + 8 < 2 ^ 32 ->
  offset v + 8 <= scope_start v buf ->
  scope_start v buf + 4 <= len buf -> scope_start v buf + 4 < 2 ^ 32 ->
  write_from v key <= uint32 (start v + size) -> uint32 (start v + size) <= len buf ->
  0 <= start_ <= len b -> len buf < 2 ^ 63 ->
  exists r : written,
    writeByteSlice (Some (mkElement (Some v))) key start_ size b = Returns r
    /\ failure r = None
    /\ writeByteSlice
         (Some (mkElement (Some (mkValue (start v) (offset v) (Some (src_after r)) None))))
         key start_ size b = Returns r.
Proof.
  intros Hdata Hd Hi Hn Hs Hso Hcode H32 Hafter Hscope Hs32 Hfrom Hhi Hstart Hlen.
  set (outer := int32 (scope_start v buf + scope_length v buf - offset v)).
  set (patched := put_i32 buf (offset v) outer).
  set (v2 := mkValue (start v) (offset v) (Some patched) (@None Document)).
  assert (Hlp : len patched = len buf) by (apply len_put_i32; lia).
  assert (Hcl : code_length v2 patched = code_length v buf).
  { unfold code_length. cbn [offset v2]. apply field_put_i32_after; lia. }
  assert (Hss : scope_start v2 patched = scope_start v buf).
  { unfold scope_start. rewrite Hcl. reflexivity. }
  assert (Hsl : scope_length v2 patched = scope_length v buf).
  { unfold scope_length. rewrite Hss. apply field_put_i32_after; lia. }
  exists (mkWritten patched
            (overwrite b start_ (sub patched (write_from v key) (uint32 (start v + size))))
            (copied b start_ (sub patched (write_from v key) (uint32 (start v + size))))
            None).
  split.
  { rewrite (writeByteSlice_passes v key start_ size b Hn).
    rewrite Hdata. cbn [bytes]. rewrite (write_from_uint v key) by lia.
    rewrite (write_switch_code_with_scope v buf key _ start_ size b Hi).
    apply write_code_with_scope_raw; lia || assumption. }
  split; [reflexivity|].
  cbn [src_after]. fold v2.
  rewrite (writeByteSlice_passes v2 key start_ size b Hn).
  cbn [data v2 bytes]. rewrite (write_from_uint v2 key) by (cbn [start offset v2]; lia).
  rewrite (write_switch_code_with_scope v2 patched key _ start_ size b)
    by (cbn [start v2]; unfold patched; rewrite index_put_i32_before by lia; exact Hi).
  assert (Hpp : put_i32 patched (offset v) outer = patched)
    by (unfold patched; apply put_i32_twice; lia).
  rewrite (write_code_with_scope_raw v2 patched key start_ size b);
    cbn [start offset d v2]; rewrite ?Hss, ?Hsl, ?Hlp; try (lia || assumption).
  - fold outer. rewrite Hpp. reflexivity.
  - reflexivity.
Qed.

(** X7.  On a code-with-scope element without override the write leaves
    the element's buffer as it was exactly when the outer length field
    already holds (scopeStart + scopeLength) - offset; the output is then
    the plain copy of [buffer[writeFrom : start+knownSize]]. *)
Theorem writeByteSlice_raw_code_with_scope_consistent v (buf : list byte) (key : bool)
  (start_ size : Z) (b : list byte) :
  data v = Some buf -> d v = None ->
  index buf (start v) = Returns Byte.x0f ->
  needed v key start_ size <= len b ->
  0 <= start v < 2 ^ 32 -> 0 <= offset v ->
  offset v + 8 <= len buf -> offset v + 8 < 2 ^ 32 ->
  scope_start v buf + 4 <= len buf -> scope_start v buf + 4 < 2 ^ 32 ->
  write_from v key <= uint32 (start v + size) -> uint32 (start v + size) <= len buf ->
  0 <= start_ <= len b -> len buf < 2 ^ 63 ->
  let outer := int32 (scope_start v buf + scope_length v buf - offset v) in
  let copy_of := sub buf (write_from v key) (uint32 (start v + size)) in
  exists r : written,
    writeByteSlice (Some (mkElement (Some v))) key start_ size b = Returns r
    /\ (src_after r = buf <-> field_i32 buf (offset v) = outer)
    /\ (field_i32 buf (offset v) = outer ->
          r = mkWritten buf (overwrite b start_ copy_of) (copied b start_ copy_of) None).
Proof.
  intros Hdata Hd Hi Hn Hs Ho Hcode H32 Hscope Hs32 Hfrom Hhi Hstart Hlen outer copy_of.
  set (patched := put_i32 buf (offset v) outer).
  exists (mkWritten patched
            (overwrite b start_ (sub patched (write_from v key) (uint32 (start v + size))))
            (copied b start_ (sub patched (write_from v key) (uint32 (start v + size))))
            None).
  assert (Hsame : field_i32 buf (offset v) = outer -> patched = buf).
  { intros E. unfold patched. rewrite <- E. apply put_i32_field; lia. }
  split.
  { rewrite (writeByteSlice_passes v key start_ size b Hn).
    rewrite Hdata. cbn [bytes]. rewrite (write_from_uint v key) by lia.
    rewrite (write_switch_code_with_scope v buf key _ start_ size b Hi).
    apply write_code_with_scope_raw; lia || assumption. }
  split.
  - cbn [src_after]. split.
    + intros E. rewrite <- E at 1. unfold patched.
      rewrite field_put_i32 by lia. unfold outer. apply int32_int32.
    + exact Hsame.
  - intros E. rewrite (Hsame E). reflexivity.
Qed.

(** X8.  [MarshalBSON] returns bytes or an error, never both and never
    neither; and the bytes it returns for an element without override are
    exactly as many as [Validate] reported. *)
Theorem MarshalBSON_all_or_nothing :
  (forall e (e' : option (Element Document)) (bs : option (list byte))
          (err : option error),
     MarshalBSON e = Returns (e', bs, err) -> (bs = None <-> err <> None))
  /\ (forall v (buf : list byte) (size : Z) (e' : option (Element Document))
             (bs : list byte),
        data v = Some buf -> d v = None ->
        Validate (Some (mkElement (Some v))) = Returns (size, None) ->
        MarshalBSON (Some (mkElement (Some v))) = Returns (e', Some bs, None) ->
        len bs = size).
Proof.
  split.
  - intros e e' bs err. unfold MarshalBSON.
    destruct (Validate e) as [[size [x|]]|p]; cbn [bind]; try discriminate.
    + intros H. inversion H. split; [discriminate | reflexivity].
    + destruct (writeByteSlice e true 0 size (make size)) as [r|p]; cbn [bind];
        try discriminate.
      destruct (failure r) as [x|]; intros H; inversion H.
      * split; [discriminate | reflexivity].
      * split; [discriminate | intros N; contradiction].
  - intros v buf size e' bs Hdata Hd Hv. unfold MarshalBSON. rewrite Hv. cbn [bind].
    pose proof (Validate_size_range _ size Hv) as Hr.
    destruct (writeByteSlice (Some (mkElement (Some v))) true 0 size (make size))
      as [r|p] eqn:Hw; cbn [bind]; try discriminate.
    assert (Hlm : len (make size) = size) by (apply len_make; lia).
    assert (Hl : len (dst_after r) = len (make size)).
    { destruct (writeByteSlice_raw_cases v buf true 0 size (make size) r Hdata Hd Hw)
        as [[err ->] | [buf' [from [_ Hc]]]]; [reflexivity|].
      destruct (copy_verbatim_frame v buf' from 0 size (make size) r ltac:(lia) Hc)
        as [[Hl _] _]. exact Hl. }
    destruct (failure r) as [x|]; intros H; inversion H; subst. lia.
Qed.

(** X9.  For an element without override that validates to [size], with
    a tag other than 0x0F and its [size] bytes inside its buffer,
    [MarshalBSON] returns exactly the bytes [data[start : start+size]] and
    leaves the element alone.  The element read back from those bytes, at
    start 0 with the offset moved down by [start], has the same key. *)
Theorem MarshalBSON_raw_bytes v (buf : list byte) (size : Z) (tag : byte) :
  data v = Some buf -> d v = None ->
  index buf (start v) = Returns tag -> tag <> Byte.x0f ->
  Validate (Some (mkElement (Some v))) = Returns (size, None) ->
  0 <= start v -> start v + size <= len buf -> len buf < 2 ^ 32 ->
  let bs := sub buf (start v) (start v + size) in
  MarshalBSON (Some (mkElement (Some v)))
    = Returns (Some (mkElement (Some v)), Some bs, None)
  /\ len bs = size
  /\ (start v + 2 <= offset v -> offset v <= start v + size + 1 ->
        KeyOK (Some (mkElement (Some (mkValue 0 (offset v - start v) (Some bs)
                                        (@None Document)))))
          = KeyOK (Some (mkElement (Some v)))
        /\ KeyOK (Some (mkElement (Some v)))
           = Returns (sub buf (start v + 1) (offset v - 1), true)).
Proof.
  intros Hdata Hd Hi Ht Hv Hs Hhi H32 bs.
  pose proof (Validate_size_range _ size Hv) as Hr.
  assert (Hlm : len (make size) = size) by (apply len_make; lia).
  assert (Hlb : len bs = size) by (unfold bs; rewrite len_sub by lia; lia).
  split.
  { unfold MarshalBSON. rewrite Hv. cbn [bind].
    rewrite (write_raw_with_key v buf 0 size (make size) tag) by (assumption || lia).
    cbn [bind failure src_after dst_after].
    rewrite skipn_all2 by (unfold len in Hlm; lia).
    simpl firstn. rewrite app_nil_r. cbn [app]. fold bs.
    destruct v as [s o dt dc]. cbn [data] in Hdata. subst dt. reflexivity. }
  split; [exact Hlb|].
  intros Hso Hos.
  assert (Hk : KeyOK (Some (mkElement (Some v)))
               = Returns (sub buf (start v + 1) (offset v - 1), true)).
  { rewrite (KeyOK_initialized _ (mkElement (Some v)) v buf eq_refl eq_refl ltac:(lia) Hdata).
    rewrite (uint32_small (start v + 1)), (uint32_small (offset v - 1)) by lia.
    rewrite slice_in_range by lia. reflexivity. }
  split; [|exact Hk].
  rewrite Hk.
  set (v2 := mkValue 0 (offset v - start v) (Some bs) (@None Document)).
  rewrite (KeyOK_initialized _ (mkElement (Some v2)) v2 bs eq_refl eq_refl
             ltac:(cbn [offset v2]; lia) eq_refl).
  cbn [start offset v2].
  rewrite (uint32_small (0 + 1)), (uint32_small (offset v - start v - 1)) by lia.
  rewrite slice_in_range by lia. cbn [bind].
  unfold bs. rewrite sub_sub by lia.
  do 3 f_equal; lia.
Qed.

(** X10.  What the stream paths do with a failure.  When the element does
    not validate, [MarshalBSON] returns nil and the error, [WriteTo]
    returns 0 and the error with a stack attached, and [WriteElement] on a
    writer returns 0 and the bare error; none of them calls the writer.
    When the write into the fresh buffer fails, [WriteTo] and
    [WriteElement] both return 0 and that error with a stack attached, and
    the writer is not called either.  For an element that validates,
    [WriteElement] on a writer is [WriteTo]. *)
Theorem WriteTo_failure :
  (forall e (w : Writer) (s n : Z) (err : error),
     Validate e = Returns (n, Some err) ->
     MarshalBSON e = Returns (e, None, Some err)
     /\ WriteTo e w = Returns (e, w, 0, Some (WithStack err))
     /\ WriteElement e s (Stream w) = Returns (e, Stream w, 0, Some err))
  /\ (forall e (w : Writer) (s size : Z) (r : written) (err : error),
        Validate e = Returns (size, None) ->
        writeByteSlice e true 0 size (make size) = Returns r -> failure r = Some err ->
        WriteTo e w = Returns (with_data e (src_after r), w, 0, Some (WithStack err))
        /\ WriteElement e s (Stream w)
           = Returns (with_data e (src_after r), Stream w, 0, Some (WithStack err)))
  /\ (forall e (w : Writer) (s size : Z),
        Validate e = Returns (size, None) ->
        WriteElement e s (Stream w)
          = ('(e', w', n, err) <- WriteTo e w ;; Returns (e', Stream w', n, err))).
Proof.
  split.
  { intros e w s n err Hv.
    assert (Hm : MarshalBSON e = Returns (e, None, Some err))
      by (unfold MarshalBSON; rewrite Hv; reflexivity).
    split; [exact Hm|]. split.
    - unfold WriteTo. rewrite Hm. reflexivity.
    - unfold WriteElement, writeElement. rewrite Hv. reflexivity. }
  split.
  { intros e w s size r err Hv Hw Hf.
    assert (Hm : MarshalBSON e = Returns (with_data e (src_after r), None, Some err))
      by (unfold MarshalBSON; rewrite Hv; cbn [bind]; rewrite Hw; cbn [bind];
          rewrite Hf; reflexivity).
    assert (Ht : WriteTo e w
                 = Returns (with_data e (src_after r), w, 0, Some (WithStack err)))
      by (unfold WriteTo; rewrite Hm; reflexivity).
    split; [exact Ht|].
    unfold WriteElement, writeElement. rewrite Hv. cbn [bind]. rewrite Ht. reflexivity. }
  intros e w s size Hv. unfold WriteElement, writeElement. rewrite Hv. reflexivity.
Qed.

End MoreProperties.

(** ** Properties of the constructors and conversions *)

Lemma store_app (l1 l2 : list byte) (c c' : byte) :
  store (l1 ++ c :: l2) (len l1) c' = Returns (l1 ++ c' :: l2).
Proof.
  unfold store. pose proof (len_nonneg l1) as H0.
  replace (0 <=? len l1) with true by (symmetry; apply Z.leb_le; lia).
  replace (len l1 <? len (l1 ++ c :: l2)) with true
    by (symmetry; apply Z.ltb_lt; rewrite len_app; unfold len; simpl length; lia).
  cbn [andb]. f_equal.
  replace (Z.to_nat (len l1)) with (length l1 + 0)%nat by (unfold len; lia).
  replace (Z.to_nat (len l1 + 1)) with (length l1 + 1)%nat by (unfold len; lia).
  rewrite firstn_app_2, skipn_app, skipn_all2 by lia.
  replace (length l1 + 1 - length l1)%nat with 1%nat by lia.
  simpl. rewrite app_nil_r. reflexivity.
Qed.

Lemma copy_between_app (l1 m l2 src : list byte) :
  len src = len m ->
  copy_between (l1 ++ m ++ l2) (len l1) (len l1 + len m) src
    = Returns (l1 ++ src ++ l2, len m).
Proof.
  intros Hl. unfold copy_between.
  pose proof (len_nonneg l1) as H0. pose proof (len_nonneg m) as H1.
  replace (0 <=? len l1) with true by (symmetry; apply Z.leb_le; lia).
  replace (len l1 <=? len l1 + len m) with true by (symmetry; apply Z.leb_le; lia).
  replace (len l1 + len m <=? len (l1 ++ m ++ l2)) with true
    by (symmetry; apply Z.leb_le; rewrite !len_app; pose proof (len_nonneg l2); lia).
  cbn [andb].
  replace (len l1 + len m - len l1) with (len m) by lia.
  rewrite Hl, Z.min_id. f_equal. f_equal.
  replace (Z.to_nat (len l1)) with (length l1 + 0)%nat by (unfold len; lia).
  rewrite firstn_app_2. simpl firstn. rewrite app_nil_r.
  f_equal.
  rewrite <- Hl. unfold len at 1. rewrite Nat2Z.id, firstn_all. f_equal.
  rewrite app_assoc.
  replace (Z.to_nat (len l1 + len src)) with (length (l1 ++ m) + 0)%nat
    by (rewrite length_app; unfold len in *; lia).
  rewrite skipn_app, skipn_all2 by lia.
  replace (length (l1 ++ m) + 0 - length (l1 ++ m))%nat with 0%nat by lia.
  reflexivity.
Qed.

Lemma copy_app (l1 m src : list byte) :
  len src = len m -> copy (l1 ++ m) (len l1) src = Returns (l1 ++ src, len m).
Proof.
  intros Hl. pose proof (len_nonneg l1) as H0. pose proof (len_nonneg m) as H1.
  rewrite copy_in_range by (rewrite len_app; lia).
  rewrite overwrite_fits, copied_all by (rewrite ?len_app; lia).
  f_equal. f_equal; [|exact Hl].
  replace (Z.to_nat (len l1)) with (length l1 + 0)%nat by (unfold len; lia).
  rewrite firstn_app_2. simpl firstn. rewrite app_nil_r.
  f_equal.
  replace (Z.to_nat (len l1 + len src)) with (length (l1 ++ m))
    by (rewrite length_app; unfold len in *; lia).
  rewrite skipn_all. apply app_nil_r.
Qed.

Lemma make_app (m n : Z) : 0 <= m -> 0 <= n -> make (m + n) = make m ++ make n.
Proof.
  intros Hm Hn. unfold make. rewrite Z2Nat.inj_add by assumption. apply repeat_app.
Qed.

Section ConstructorProperties.

Context {Document : Type}.
Variable doc_Copy : Document -> outcome (option Document).

Implicit Types (v : Value Document).

(** The buffer that [convertValueToElem] fills step by step is the tag,
    the key, a null byte and the payload. *)
Lemma convertValueToElem_builds (key : list byte) v (buf : list byte) (tag : byte) :
  data v = Some buf -> offset v <> 0 -> 0 <= offset v <= len buf ->
  index buf (start v) = Returns tag ->
  len key + len buf + 2 < 2 ^ 63 ->
  convertValueToElem doc_Copy key (Some v)
    = (override <- match d v with
                   | None => Returns None
                   | Some doc => doc_Copy doc
                   end ;;
       Returns (Some (mkElement (Some (mkValue 0 (uint32 (len key + 2))
                  (Some (tag :: key ++ Byte.x00 :: skipn (Z.to_nat (offset v)) buf))
                  override))))).
Proof.
  intros Hd Ho Hr Hi Hlen.
  pose proof (len_nonneg key) as Hk. pose proof (len_nonneg buf) as Hb.
  unfold convertValueToElem.
  replace (offset v =? 0) with false by (symmetry; apply Z.eqb_neq; exact Ho).
  rewrite Hd. rewrite slice_in_range by lia. cbn [bind].
  assert (Hsub : sub buf (offset v) (len buf) = skipn (Z.to_nat (offset v)) buf).
  { unfold sub. apply firstn_all2. rewrite length_skipn. unfold len. lia. }
  rewrite Hsub.
  set (payload := skipn (Z.to_nat (offset v)) buf).
  assert (Hp : len payload = len buf - offset v)
    by (unfold payload; apply len_skipn; lia).
  rewrite (int_small (2 + len key)) by lia.
  rewrite (int_small (2 + len key + len payload)) by lia.
  rewrite (int_small (len key + 1)), (int_small (len key + 2)) by lia.
  rewrite Hi. cbn [bind].
  replace (2 + len key + len payload) with (1 + (len key + (1 + len payload))) by lia.
  rewrite (make_app 1), (make_app (len key)), (make_app 1) by lia.
  change (make 1) with [Byte.x00].
  change (store ([Byte.x00] ++ make (len key) ++ [Byte.x00] ++ make (len payload)) 0 tag)
    with (store ([] ++ Byte.x00 :: make (len key) ++ [Byte.x00] ++ make (len payload))
            (len []) tag).
  rewrite store_app. cbn [bind app].
  change (tag :: make (len key) ++ Byte.x00 :: make (len payload))
    with ([tag] ++ make (len key) ++ Byte.x00 :: make (len payload)).
  replace (len key + 1) with (len [tag] + len (make (len key)))
    by (rewrite len_make by lia; change (len [tag]) with 1; lia).
  change 1 with (len [tag]) at 1.
  rewrite copy_between_app by (rewrite len_make by lia; reflexivity).
  cbn [bind].
  rewrite len_make by lia.
  replace (len [tag] + len key) with (len ([tag] ++ key))
    by (rewrite len_app; reflexivity).
  rewrite app_assoc, store_app. cbn [bind].
  replace (([tag] ++ key) ++ Byte.x00 :: make (len payload))
    with (([tag] ++ key ++ [Byte.x00]) ++ make (len payload))
    by (rewrite <- !app_assoc; reflexivity).
  replace (len key + 2) with (len ([tag] ++ key ++ [Byte.x00]))
    by (rewrite !len_app; unfold len; simpl length; lia).
  rewrite copy_app by (rewrite len_make by lia; reflexivity).
  cbn [bind].
  replace (len ([tag] ++ key ++ [Byte.x00])) with (len key + 2)
    by (rewrite !len_app; unfold len; simpl length; lia).
  rewrite <- !app_assoc. reflexivity.
Qed.

End ConstructorProperties.

Lemma key_bytes_before_null (k t : list byte) :
  key_bytes (k ++ Byte.x00 :: t) = key_bytes k.
Proof.
  induction k as [|c k IH]; cbn [app key_bytes].
  - reflexivity.
  - destruct (Byte.eqb c Byte.x00); [reflexivity | rewrite IH; reflexivity].
Qed.

Lemma sub_after_head (c : byte) (l t : list byte) :
  sub (c :: l ++ t) 1 (len l + 1) = l.
Proof.
  unfold sub. replace (len l + 1 - 1) with (len l) by lia.
  change (skipn (Z.to_nat 1) (c :: l ++ t)) with (l ++ t).
  unfold len. rewrite Nat2Z.id.
  replace (length l) with (length l + 0)%nat at 1 by lia.
  rewrite firstn_app_2. simpl. apply app_nil_r.
Qed.

Section ConversionProperties.

Context {Document : Type}.
Variable doc_Copy : Document -> outcome (option Document).

Implicit Types (v : Value Document).

(** X11.  [convertValueToElem] returns nil for a nil value, a value with
    offset 0 and a value without buffer.  For any other value whose tag
    and payload lie in its buffer it builds a buffer that holds exactly the
    tag, the key, a null byte and the payload [data[offset:]], in an element
    that starts at 0 with its payload at [len(key) + 2] and carries the
    copy of the override; it panics when the offset lies past the
    buffer. *)
Theorem convertValueToElem_layout (key : list byte) :
  convertValueToElem doc_Copy key None = Returns None
  /\ (forall v, offset v = 0 \/ data v = None ->
        convertValueToElem doc_Copy key (Some v) = Returns None)
  /\ (forall v (buf : list byte) (tag : byte),
        data v = Some buf -> offset v <> 0 -> 0 <= offset v <= len buf ->
        index buf (start v) = Returns tag ->
        len key + len buf + 2 < 2 ^ 32 ->
        let built := tag :: key ++ Byte.x00 :: skipn (Z.to_nat (offset v)) buf in
        len built = 2 + len key + (len buf - offset v)
        /\ convertValueToElem doc_Copy key (Some v)
           = (override <- match d v with
                          | None => Returns None
                          | Some doc => doc_Copy doc
                          end ;;
              Returns (Some (mkElement
                               (Some (mkValue 0 (len key + 2) (Some built) override))))))
  /\ (forall v (buf : list byte),
        data v = Some buf -> len buf < offset v ->
        convertValueToElem doc_Copy key (Some v) = Panics SliceBoundsOutOfRange).
Proof.
  split; [reflexivity|].
  split.
  { intros v [Ho | Hd]; unfold convertValueToElem.
    - rewrite Ho. reflexivity.
    - rewrite Hd. destruct (offset v =? 0); reflexivity. }
  split.
  { intros v buf tag Hd Ho Hr Hi Hlen built.
    pose proof (len_nonneg key) as Hk. pose proof (len_nonneg buf) as Hb.
    split.
    - unfold built, len. cbn [length]. rewrite length_app. cbn [length].
      rewrite length_skipn. unfold len in *. lia.
    - rewrite (convertValueToElem_builds doc_Copy key v buf tag Hd Ho Hr Hi) by lia.
      rewrite uint32_small by lia. reflexivity. }
  intros v buf Hd Ho. unfold convertValueToElem.
  pose proof (len_nonneg buf) as Hb.
  replace (offset v =? 0) with false by (symmetry; apply Z.eqb_neq; lia).
  rewrite Hd. unfold slice.
  replace (offset v <=? len buf) with false by (symmetry; apply Z.leb_gt; lia).
  rewrite andb_false_r. reflexivity.
Qed.

(** X12.  The key of the element that [convertValueToElem] returns is the
    key it was given, byte for byte.  The element's key validates, with
    size [key_bytes key + 1]: that is the whole key and its terminator when
    the key has no null byte, and less when it has one. *)
Theorem convertValueToElem_key (key : list byte) v (buf : list byte) (tag : byte)
  (e : option (Element Document)) :
  data v = Some buf -> offset v <> 0 -> 0 <= offset v <= len buf ->
  index buf (start v) = Returns tag ->
  len key + len buf + 2 < 2 ^ 32 ->
  convertValueToElem doc_Copy key (Some v) = Returns e ->
  KeyOK e = Returns (key, true)
  /\ (exists v' : Value Document,
        e = Some (mkElement (Some v'))
        /\ validateKey v' = Returns (key_bytes key + 1, None))
  /\ (key_bytes key = len key <-> Forall nonnull key).
Proof.
  intros Hd Ho Hr Hi Hlen.
  pose proof (len_nonneg key) as Hk. pose proof (len_nonneg buf) as Hb.
  rewrite (convertValueToElem_builds doc_Copy key v buf tag Hd Ho Hr Hi) by lia.
  rewrite uint32_small by lia.
  destruct (match d v with None => Returns None | Some doc => doc_Copy doc end)
    as [override|p]; cbn [bind]; [|discriminate].
  intros H. inversion H; subst e; clear H.
  set (payload := skipn (Z.to_nat (offset v)) buf).
  set (built := tag :: key ++ Byte.x00 :: payload).
  set (v' := mkValue 0 (len key + 2) (Some built) override).
  assert (Hlb : len built = 2 + len key + len payload).
  { unfold built, len. cbn [length]. rewrite length_app. cbn [length]. lia. }
  pose proof (len_nonneg payload) as Hpl.
  assert (Hlp : len payload <= len buf).
  { unfold payload, len. rewrite length_skipn. lia. }
  split.
  { rewrite (KeyOK_initialized _ (mkElement (Some v')) v' built eq_refl eq_refl
               ltac:(cbn [offset v']; lia) eq_refl).
    cbn [start offset v'].
    rewrite (uint32_small (0 + 1)), (uint32_small (len key + 2 - 1)) by lia.
    rewrite slice_in_range by lia. cbn [bind].
    replace (0 + 1) with 1 by lia.
    replace (len key + 2 - 1) with (len key + 1) by lia.
    unfold built. rewrite (sub_after_head tag key (Byte.x00 :: payload)). reflexivity. }
  split; [|apply key_bytes_all].
  exists v'. split; [reflexivity|].
  assert (Hce : clamped_end v' built = len key + 2)
    by (apply (clamped_end_offset v' built); cbn [offset v']; lia).
  pose proof (validateKey_scans v' built eq_refl ltac:(cbn [start v']; lia)
                ltac:(rewrite Hce; cbn [start v']; lia)) as Hscan.
  cbv zeta in Hscan. rewrite Hce in Hscan. cbn [start v'] in Hscan.
  assert (Hregion : sub built (0 + 1) (len key + 2) = key ++ [Byte.x00]).
  { unfold built.
    replace (key ++ Byte.x00 :: payload) with ((key ++ [Byte.x00]) ++ payload)
      by (rewrite <- app_assoc; reflexivity).
    replace (0 + 1) with 1 by lia.
    replace (len key + 2) with (len (key ++ [Byte.x00]) + 1)
      by (rewrite len_app; unfold len; simpl length; lia).
    apply sub_after_head. }
  rewrite Hregion, key_bytes_before_null in Hscan.
  pose proof (key_bytes_range key) as Hkr.
  replace (0 + 1 + key_bytes key =? len key + 2) with false in Hscan
    by (symmetry; apply Z.eqb_neq; lia).
  exact Hscan.
Qed.

(** X13.  [elemsFromValues] keeps the length and the positions: a nil
    value gives a nil element, and every other value is found again by
    [Value] in the element at the same index.  No element it returns has a
    nil value. *)
Theorem elemsFromValues_positions (values : list (option (Value Document))) :
  length (elemsFromValues values) = length values
  /\ (forall (i : nat) v, nth_error values i = Some (Some v) ->
        exists e : option (Element Document),
          nth_error (elemsFromValues values) i = Some e
          /\ Element_Value e = Returns (Some v))
  /\ (forall i : nat, nth_error values i = Some None ->
        nth_error (elemsFromValues values) i = Some None)
  /\ (forall e : option (Element Document),
        In e (elemsFromValues values) -> e <> Some (mkElement None)).
Proof.
  unfold elemsFromValues.
  split; [apply length_map|].
  split.
  { intros i v H. eexists. split.
    - rewrite nth_error_map, H. reflexivity.
    - reflexivity. }
  split.
  { intros i H. rewrite nth_error_map, H. reflexivity. }
  intros e Hin. apply in_map_iff in Hin. destruct Hin as [[v|] [He _]]; subst e; discriminate.
Qed.


End ConversionProperties.

(** ** Equality and fresh elements *)

Lemma bytes_eqb_sym (a b : list byte) : bytes_eqb a b = bytes_eqb b a.
Proof.
  unfold bytes_eqb.
  destruct (list_eq_dec Byte.byte_eq_dec a b) as [E|N],
           (list_eq_dec Byte.byte_eq_dec b a) as [E'|N']; try reflexivity.
  - subst b. contradiction.
  - subst a. contradiction.
Qed.

Section EqualityProperties.

Context {Document Writer : Type} {pkg : Package Document Writer}.
Variable doc_Copy : Document -> outcome (option Document).

Implicit Types (e : option (Element Document)) (v : Value Document).

(** X14.  [Equal] gives the same answer both ways round on two elements
    whose keys [KeyOK] finds, whenever the values' own [Equal] does on
    their values; a nil element and any element compare the same both
    ways; and an element whose key is found and whose value equals itself
    is equal to itself. *)
Theorem Equal_symmetric :
  (forall e, Equal None e = Equal e None)
  /\ (forall (el el2 : Element Document) v v2 (k k2 : list byte),
        value el = Some v -> value el2 = Some v2 ->
        KeyOK (Some el) = Returns (k, true) -> KeyOK (Some el2) = Returns (k2, true) ->
        value_Equal v v2 = value_Equal v2 v ->
        Equal (Some el) (Some el2) = Equal (Some el2) (Some el))
  /\ (forall (el : Element Document) v (k : list byte),
        value el = Some v -> KeyOK (Some el) = Returns (k, true) ->
        value_Equal v v = Returns true ->
        Equal (Some el) (Some el) = Returns true).
Proof.
  split.
  { intros [el|]; reflexivity. }
  split.
  { intros el el2 v v2 k k2 Hv Hv2 Hk Hk2 Hsym.
    rewrite (Equal_initialized el el2 v v2 k k2 Hv Hv2 Hk Hk2).
    rewrite (Equal_initialized el2 el v2 v k2 k Hv2 Hv Hk2 Hk).
    rewrite (bytes_eqb_sym k k2), Hsym. reflexivity. }
  intros el v k Hv Hk Hrefl.
  rewrite (Equal_initialized el el v v k k Hv Hv Hk Hk).
  replace (bytes_eqb k k) with true by (symmetry; apply bytes_eqb_eq; reflexivity).
  exact Hrefl.
Qed.

(** X15.  An element fresh from [newElement] has no buffer yet, whatever
    its offsets: [Validate] reports size 1 and [UninitializedElement],
    [MarshalBSON] returns nil and that error, [WriteElement] returns 0 and
    that error for every target, [KeyOK] does not find a key, and
    converting its value gives nil; [Key] and [Equal] panic with that
    error. *)
Theorem newElement_uninitialized (start_ offset_ : Z) :
  Validate (newElement start_ offset_) = Returns (1, Some UninitializedElement)
  /\ MarshalBSON (newElement start_ offset_)
     = Returns (newElement start_ offset_, None, Some UninitializedElement)
  /\ (forall (s : Z) (w : target),
        WriteElement (newElement start_ offset_) s w
          = Returns (newElement start_ offset_, w, 0, Some UninitializedElement))
  /\ KeyOK (newElement (Document := Document) start_ offset_) = Returns ([], false)
  /\ Key (newElement (Document := Document) start_ offset_)
     = Panics (Thrown UninitializedElement)
  /\ (forall e, e <> None ->
        Equal (newElement start_ offset_) e = Panics (Thrown UninitializedElement))
  /\ (forall (key : list byte) v,
        Element_Value (newElement start_ offset_) = Returns (Some v) ->
        convertValueToElem doc_Copy key (Some v) = Returns None).
Proof.
  assert (Hu : uninitialized (newElement (Document := Document) start_ offset_))
    by (simpl; right; reflexivity).
  assert (Hv : Validate (newElement start_ offset_)
               = Returns (1, Some UninitializedElement)) by reflexivity.
  split; [exact Hv|].
  split; [unfold MarshalBSON; rewrite Hv; reflexivity|].
  split; [intros s w; unfold WriteElement, writeElement; rewrite Hv; reflexivity|].
  split; [apply KeyOK_uninitialized; exact Hu|].
  split; [apply Key_uninitialized; exact Hu|].
  split.
  { intros [el|] Hne; [|contradiction].
    unfold newElement in *. unfold Equal. rewrite (Key_uninitialized _ Hu). reflexivity. }
  intros key v H. inversion H; subst v.
  unfold convertValueToElem. cbn [offset data].
  destruct (offset_ =? 0); reflexivity.
Qed.

End EqualityProperties.

(** ** A failing override *)

Section PartialWrites.

Context {Document Writer : Type} {pkg : Package Document Writer}.

Implicit Types (e : option (Element Document)) (v : Value Document).

(** X16.  An embedded document or array with an override, written with
    its key: the header (tag and key) is copied before the override's own
    write is called.  When that write fails after [nn] bytes and leaves
    the bytes before its offset alone, [writeByteSlice] returns the error
    with a count of header plus [nn], and the header is in the
    destination; [WriteElement] returns the too-small error and a count of
    0 for the same destination. *)
Theorem writeByteSlice_container_partial v (doc : Document) (buf : list byte)
  (start_ size : Z) (b : list byte) (tag : byte) (b' : list byte) (nn : Z) (err : error) :
  data v = Some buf -> d v = Some doc -> index buf (start v) = Returns tag ->
  tag = Byte.x03 \/ tag = Byte.x04 ->
  needed v true start_ size <= len b ->
  0 <= start v < 2 ^ 32 -> start v <= offset v -> offset v <= len buf ->
  0 <= start_ -> start_ + (offset v - start v) <= len b -> len b < 2 ^ 63 ->
  let header := sub buf (start v) (offset v) in
  let next := start_ + (offset v - start v) in
  (if Byte.eqb tag Byte.x03 then doc_writeByteSlice else arr_writeByteSlice)
    doc next (uint32 (size - uint32 (offset v - start v))) (overwrite b start_ header)
    = Returns (b', nn, Some err) ->
  firstn (Z.to_nat next) b' = firstn (Z.to_nat next) (overwrite b start_ header) ->
  0 <= nn -> offset v - start v + nn < 2 ^ 63 ->
  writeByteSlice (Some (mkElement (Some v))) true start_ size b
    = Returns (mkWritten buf b' (offset v - start v + nn) (Some err))
  /\ sub b' start_ next = header
  /\ (Validate (Some (mkElement (Some v))) = Returns (size, None) ->
        WriteElement (Some (mkElement (Some v))) start_ (ByteSlice b)
          = Returns (Some (mkElement (Some v)), ByteSlice b', 0, Some ErrTooSmall)).
Proof.
  intros Hdata Hd Hi Ht Hn Hs Hso Ho Hstart Hfit Hlen header next Hw Hpre Hnn Hsum.
  assert (Hlh : len header = offset v - start v) by (apply len_sub; lia).
  assert (Hrun : writeByteSlice (Some (mkElement (Some v))) true start_ size b
                 = Returns (mkWritten buf b' (offset v - start v + nn) (Some err))).
  { rewrite (writeByteSlice_passes v true start_ size b Hn).
    rewrite Hdata. cbn [bytes]. rewrite (uint_small (start v)) by lia.
    destruct Ht as [-> | ->].
    - rewrite (write_switch_document v doc buf true _ start_ size b Hd Hi).
      rewrite write_container_with_key by lia.
      change (Byte.eqb Byte.x03 Byte.x03) with true in Hw. cbv iota in Hw.
      fold header next. rewrite Hw. cbn [bind].
      rewrite (int_small nn) by lia.
      rewrite (int_small (offset v - start v + nn)) by lia.
      rewrite int64_small by lia. reflexivity.
    - rewrite (write_switch_array v doc buf true _ start_ size b Hd Hi).
      rewrite write_container_with_key by lia.
      change (Byte.eqb Byte.x04 Byte.x03) with false in Hw. cbv iota in Hw.
      fold header next. rewrite Hw. cbn [bind].
      rewrite (int_small nn) by lia.
      rewrite (int_small (offset v - start v + nn)) by lia.
      rewrite int64_small by lia. reflexivity. }
  split; [exact Hrun|].
  split.
  { rewrite <- (sub_firstn b' next) by (unfold next; lia). rewrite Hpre.
    rewrite sub_firstn by (unfold next; lia).
    unfold next. rewrite <- Hlh.
    replace start_ with (start_ + 0) at 2 by lia.
    rewrite sub_overwrite by lia.
    unfold sub. rewrite Z.sub_0_r. simpl skipn.
    unfold len. rewrite Nat2Z.id. apply firstn_all. }
  intros Hv. unfold WriteElement, writeElement. rewrite Hv. cbn [bind].
  rewrite Hrun. cbn [bind failure src_after dst_after].
  destruct v as [s o dt dc]. cbn [data] in Hdata. subst dt. reflexivity.
Qed.

End PartialWrites.

(** ** The further properties on concrete elements *)

(** X1 on the string element: the key "x" validates with size 2, and the
    byte at 2 is its terminator. *)
Lemma validateKey_finds_first_null_witness :
  1 <= 2 /\ 0 + 2 < clamped_end Fixture.string_value Fixture.string_x_hi
  /\ index Fixture.string_x_hi (0 + 2) = Returns Byte.x00
  /\ Forall nonnull (sub Fixture.string_x_hi (0 + 1) (0 + 2)).
Proof.
  exact (proj1 (proj2 (validateKey_finds_first_null Fixture.string_value
                         Fixture.string_x_hi eq_refl ltac:(by_evaluation)
                         ltac:(by_evaluation)))
           2 eq_refl).
Defined.

(** X2 on the string element: its key is "x", without null byte. *)
Lemma KeyOK_of_validated_key_witness :
  KeyOK Fixture.string_element = Returns ([Byte.x78], true)
  /\ 1 <= 2 <= 3 - 0 - 1
  /\ (Forall nonnull (sub Fixture.string_x_hi (0 + 1) (3 - 1)) <-> 2 = 3 - 0 - 1).
Proof.
  exact (KeyOK_of_validated_key Fixture.string_value Fixture.string_x_hi 2
           eq_refl ltac:(by_evaluation) ltac:(by_evaluation) ltac:(by_evaluation)
           ltac:(by_evaluation) eq_refl).
Defined.

(** X3 on the stale code-with-scope element written at offset 2 of a
    twenty-byte destination. *)
Lemma writeByteSlice_raw_frame_witness :
  untouched_outside (make 20) 2
    (mkWritten (Fixture.code_with_scope Byte.x0e)
       (overwrite (make 20) 2 (Fixture.code_with_scope Byte.x0e)) 17 None).
Proof.
  exact (proj1 (writeByteSlice_raw_frame (pkg := Fixture.package)
                  Fixture.stale_value Fixture.stale true 2 17 (make 20) _
                  eq_refl eq_refl ltac:(by_evaluation) eq_refl)).
Defined.

(** X4 on the string element: its payload has seven bytes, and a
    destination of seven bytes is refused when the key is left out. *)
Lemma writeByteSlice_room_witness :
  writeByteSlice (pkg := Fixture.package) Fixture.string_element false 0 10 (make 7)
    = Returns (mkWritten Fixture.string_x_hi (make 7) 0 (Some ErrTooSmall))
  /\ writeByteSlice (pkg := Fixture.package) Fixture.string_element true 0 10 (make 10)
     = Returns (mkWritten Fixture.string_x_hi Fixture.string_x_hi 10 None).
Proof.
  split.
  - exact (proj1 (proj2 (writeByteSlice_room (pkg := Fixture.package)
                    Fixture.string_value Fixture.string_x_hi 0 10 (make 7) Byte.x02
                    eq_refl eq_refl eq_refl ltac:(discriminate) ltac:(by_evaluation)
                    ltac:(by_evaluation) ltac:(by_evaluation) ltac:(by_evaluation)
                    ltac:(by_evaluation) ltac:(by_evaluation) ltac:(by_evaluation)))
             eq_refl).
  - exact (proj1 (writeByteSlice_room (pkg := Fixture.package)
                    Fixture.string_value Fixture.string_x_hi 0 10 (make 10) Byte.x02
                    eq_refl eq_refl eq_refl ltac:(discriminate) ltac:(by_evaluation)
                    ltac:(by_evaluation) ltac:(by_evaluation) ltac:(by_evaluation)
                    ltac:(by_evaluation) ltac:(by_evaluation) ltac:(by_evaluation))
             eq_refl).
Defined.

(** X5: the string element twice in a row. *)
Lemma writeByteSlice_back_to_back_witness :
  exists r r' : written,
    writeByteSlice (pkg := Fixture.package) Fixture.string_element true 0 10 (make 20)
      = Returns r
    /\ count r = 10
    /\ writeByteSlice (pkg := Fixture.package) Fixture.string_element true (0 + count r) 10
         (dst_after r) = Returns r'
    /\ count r' = 10
    /\ dst_after r' = Fixture.string_x_hi ++ Fixture.string_x_hi.
Proof.
  exact (writeByteSlice_back_to_back (pkg := Fixture.package)
           Fixture.string_value Fixture.string_x_hi 10 Byte.x02
           Fixture.string_value Fixture.string_x_hi 10 Byte.x02 0 (make 20)
           eq_refl eq_refl eq_refl ltac:(discriminate) ltac:(by_evaluation)
           ltac:(by_evaluation) ltac:(by_evaluation) ltac:(by_evaluation)
           eq_refl eq_refl eq_refl ltac:(discriminate) ltac:(by_evaluation)
           ltac:(by_evaluation) ltac:(by_evaluation) ltac:(by_evaluation)
           ltac:(by_evaluation) ltac:(by_evaluation) ltac:(by_evaluation)).
Defined.

(** X6 on the stale code-with-scope element. *)
Lemma writeByteSlice_raw_code_with_scope_again_witness :
  exists r : written,
    writeByteSlice (pkg := Fixture.package) Fixture.stale_element true 0 17 (make 17)
      = Returns r
    /\ failure r = None
    /\ writeByteSlice (pkg := Fixture.package)
         (Some (mkElement (Some (mkValue 0 3 (Some (src_after r)) None))))
         true 0 17 (make 17) = Returns r.
Proof.
  exact (writeByteSlice_raw_code_with_scope_again (pkg := Fixture.package)
           Fixture.stale_value Fixture.stale true 0 17 (make 17)
           eq_refl eq_refl eq_refl ltac:(by_evaluation) ltac:(by_evaluation)
           ltac:(by_evaluation) ltac:(by_evaluation) ltac:(by_evaluation)
           ltac:(by_evaluation) ltac:(by_evaluation) ltac:(by_evaluation)
           ltac:(by_evaluation) ltac:(by_evaluation) ltac:(by_evaluation)
           ltac:(by_evaluation)).
Defined.

(** X7 on the code-with-scope element whose outer length is right. *)
Lemma writeByteSlice_raw_code_with_scope_consistent_witness :
  exists r : written,
    writeByteSlice (pkg := Fixture.package)
      (Some (mkElement (Some Samples.consistent_value))) true 0 17 (make 17) = Returns r
    /\ (src_after r = Fixture.code_with_scope Byte.x0e
          <-> field_i32 (Fixture.code_with_scope Byte.x0e) 3 = 14)
    /\ (field_i32 (Fixture.code_with_scope Byte.x0e) 3 = 14 ->
          r = mkWritten (Fixture.code_with_scope Byte.x0e)
                (Fixture.code_with_scope Byte.x0e) 17 None).
Proof.
  exact (writeByteSlice_raw_code_with_scope_consistent (pkg := Fixture.package)
           Samples.consistent_value (Fixture.code_with_scope Byte.x0e) true 0 17 (make 17)
           eq_refl eq_refl eq_refl ltac:(by_evaluation) ltac:(by_evaluation)
           ltac:(by_evaluation) ltac:(by_evaluation) ltac:(by_evaluation)
           ltac:(by_evaluation) ltac:(by_evaluation) ltac:(by_evaluation)
           ltac:(by_evaluation) ltac:(by_evaluation) ltac:(by_evaluation)).
Defined.

(** X8 on the string element. *)
Lemma MarshalBSON_all_or_nothing_witness : len Fixture.string_x_hi = 10.
Proof.
  exact (proj2 (MarshalBSON_all_or_nothing (pkg := Fixture.package))
           Fixture.string_value Fixture.string_x_hi 10 Fixture.string_element
           Fixture.string_x_hi eq_refl eq_refl eq_refl eq_refl).
Defined.

(** X9 on the string element. *)
Lemma MarshalBSON_raw_bytes_witness :
  MarshalBSON (pkg := Fixture.package) Fixture.string_element
    = Returns (Fixture.string_element, Some Fixture.string_x_hi, None).
Proof.
  exact (proj1 (MarshalBSON_raw_bytes (pkg := Fixture.package)
                  Fixture.string_value Fixture.string_x_hi 10 Byte.x02
                  eq_refl eq_refl eq_refl ltac:(discriminate) eq_refl
                  ltac:(by_evaluation) ltac:(by_evaluation) ltac:(by_evaluation))).
Defined.

(** X10 on the element with a nil value, and on the element whose
    override fails to write. *)
Lemma WriteTo_failure_witness :
  WriteTo (pkg := Fixture.package) Fixture.hollow_element [Byte.x01]
    = Returns (Fixture.hollow_element, [Byte.x01], 0,
               Some (WithStack UninitializedElement))
  /\ WriteElement (pkg := Fixture.package) Fixture.hollow_element 0 (Stream [Byte.x01])
     = Returns (Fixture.hollow_element, Stream [Byte.x01], 0, Some UninitializedElement)
  /\ WriteTo (pkg := Fixture.package) Fixture.failing_element [Byte.x01]
     = Returns (Fixture.failing_element, [Byte.x01], 0, Some (WithStack (Structural 7))).
Proof.
  split; [|split].
  - exact (proj1 (proj2 (proj1 (WriteTo_failure (pkg := Fixture.package))
                           Fixture.hollow_element [Byte.x01] 0 0 UninitializedElement
                           eq_refl))).
  - exact (proj2 (proj2 (proj1 (WriteTo_failure (pkg := Fixture.package))
                           Fixture.hollow_element [Byte.x01] 0 0 UninitializedElement
                           eq_refl))).
  - exact (proj1 (proj1 (proj2 (WriteTo_failure (pkg := Fixture.package)))
                    Fixture.failing_element [Byte.x01] 0 8
                    (mkWritten Fixture.embedded
                       (overwrite (make 8) 0 (firstn 3 Fixture.embedded)) 3
                       (Some (Structural 7)))
                    (Structural 7) eq_refl eq_refl eq_refl)).
Defined.

(** X11 and X12: the string value under the key "a". *)
Lemma convertValueToElem_layout_witness :
  convertValueToElem Samples.copy_document Samples.key_a (Some Fixture.string_value)
    = Returns (Some (mkElement (Some (mkValue 0 3
                 (Some (Byte.x02 :: Byte.x61 :: Byte.x00
                          :: skipn 3 Fixture.string_x_hi)) None)))).
Proof.
  exact (proj2 (proj1 (proj2 (proj2 (convertValueToElem_layout Samples.copy_document
                                       Samples.key_a)))
                  Fixture.string_value Fixture.string_x_hi Byte.x02
                  eq_refl ltac:(discriminate) ltac:(by_evaluation) eq_refl
                  ltac:(by_evaluation))).
Defined.

Lemma convertValueToElem_key_witness :
  KeyOK (Some (mkElement (Some (mkValue 0 3
           (Some (Byte.x02 :: Byte.x61 :: Byte.x00 :: skipn 3 Fixture.string_x_hi))
           (@None Fixture.document)))))
    = Returns (Samples.key_a, true).
Proof.
  exact (proj1 (convertValueToElem_key Samples.copy_document Samples.key_a
                  Fixture.string_value Fixture.string_x_hi Byte.x02 _
                  eq_refl ltac:(discriminate) ltac:(by_evaluation) eq_refl
                  ltac:(by_evaluation) eq_refl)).
Defined.

(** X13 on a value and a nil. *)
Lemma elemsFromValues_positions_witness :
  (exists e : option (Element Fixture.document),
     nth_error (elemsFromValues Samples.two_values) 0 = Some e
     /\ Element_Value e = Returns (Some Fixture.string_value))
  /\ nth_error (elemsFromValues Samples.two_values) 1 = Some None.
Proof.
  split.
  - exact (proj1 (proj2 (elemsFromValues_positions Samples.two_values))
             0%nat Fixture.string_value eq_refl).
  - exact (proj1 (proj2 (proj2 (elemsFromValues_positions Samples.two_values)))
             1%nat eq_refl).
Defined.

(** X14 on the string element and itself. *)
Lemma Equal_symmetric_witness :
  Equal (pkg := Fixture.package) Fixture.string_element Fixture.string_element
    = Returns true.
Proof.
  exact (proj2 (proj2 (Equal_symmetric (pkg := Fixture.package)))
           (mkElement (Some Fixture.string_value)) Fixture.string_value [Byte.x78]
           eq_refl eq_refl eq_refl).
Defined.

(** X15: converting the value of a fresh element. *)
Lemma newElement_uninitialized_witness :
  convertValueToElem Samples.copy_document Samples.key_a
    (Some (mkValue 0 3 None None)) = Returns None.
Proof.
  exact (proj2 (proj2 (proj2 (proj2 (proj2 (proj2
           (newElement_uninitialized (pkg := Fixture.package) Samples.copy_document 0 3))))))
           Samples.key_a (mkValue 0 3 None None) eq_refl).
Defined.

(** X16 on the embedded document whose override fails to write. *)
Lemma writeByteSlice_container_partial_witness :
  writeByteSlice (pkg := Fixture.package) Fixture.failing_element true 0 8 (make 8)
    = Returns (mkWritten Fixture.embedded
                 (overwrite (make 8) 0 (firstn 3 Fixture.embedded)) 3
                 (Some (Structural 7)))
  /\ WriteElement (pkg := Fixture.package) Fixture.failing_element 0 (ByteSlice (make 8))
     = Returns (Fixture.failing_element,
                ByteSlice (overwrite (make 8) 0 (firstn 3 Fixture.embedded)),
                0, Some ErrTooSmall).
Proof.
  pose proof (writeByteSlice_container_partial (pkg := Fixture.package)
                Fixture.failing_value (Fixture.FailsWrite 5 7) Fixture.embedded
                0 8 (make 8) Byte.x03
                (overwrite (make 8) 0 (firstn 3 Fixture.embedded)) 0 (Structural 7)
                eq_refl eq_refl eq_refl (or_introl eq_refl) ltac:(by_evaluation)
                ltac:(by_evaluation) ltac:(by_evaluation) ltac:(by_evaluation)
                ltac:(by_evaluation) ltac:(by_evaluation) ltac:(by_evaluation)
                eq_refl eq_refl ltac:(by_evaluation) ltac:(by_evaluation)) as H.
  exact (conj (proj1 H) (proj2 (proj2 H) eq_refl)).
Defined.

(** ** The starting offset of the public write *)

Section StartingOffset.

Context {Document Writer : Type} {pkg : Package Document Writer}.

Implicit Types (e : option (Element Document)) (v : Value Document).


End StartingOffset.


